(** * Agent-based models of gtriberti9/ABM: a shallow embedding

    Two simulations are embedded here, each from its Python source:

    - [Macro]: the inflation-targeting model of [Midterm_2/model.py] and
      [Midterm_2/agents.py] (households, firms, one central bank, mesa's
      [RandomActivation] scheduler and [DataCollector]);
    - [Schelling]: the income-based segregation model of
      [Midterms/Midterm_1/schelling/model.py] and [agents.py].

    Numbers.  Python floats are idealised as rationals ([Q]): every
    arithmetic operation is exact, and a division whose divisor is zero
    raises [ZeroDivisionError], modelled by [None] in the option monad.
    Statements about numeric fields use [==] ([Qeq]).

    Randomness.  Every draw the programs take from a random generator is an
    explicit input: a stream of numbers for the values drawn at
    construction, and lists of naturals ("picks") from which a shuffle or a
    sample without replacement is computed.  Any order and any sample the
    generator could produce is the image of some picks. *)

From Stdlib Require Import QArith Qabs Qminmax Qpower Lqa Lia.
From stdpp Require Import base option list.

Open Scope Q_scope.

(** ** Python arithmetic on idealised floats *)

Definition Qltb (a b : Q) : bool := negb (Qle_bool b a).

(** [max(a, b)] keeps its first argument unless the second is larger. *)
Definition py_max (a b : Q) : Q := if Qltb a b then b else a.

(** [min(a, b)] keeps its first argument unless the second is smaller. *)
Definition py_min (a b : Q) : Q := if Qltb b a then b else a.

(** [a / b]: raises [ZeroDivisionError] when [b] is zero. *)
Definition py_div (a b : Q) : option Q :=
  if Qeq_bool b 0 then None else Some (a / b).

(** [sum(xs)] *)
Definition py_sum (xs : list Q) : Q := foldl Qplus 0 xs.

(** ** Random choices as explicit inputs *)

(** A shuffle, or a sample of [k] elements without replacement: each pick
    selects (modulo the size of what is left) the next element taken out
    of the pool. *)
Fixpoint draw_from {A : Type} (picks : list nat) (pool : list A) (k : nat)
  : list A :=
  match k with
  | O => []
  | S k' =>
      let j := (hd 0%nat picks mod length pool)%nat in
      match pool !! j with
      | Some x => x :: draw_from (tl picks) (delete j pool) k'
      | None => []
      end
  end.

Definition shuffle {A : Type} (picks : list nat) (l : list A) : list A :=
  draw_from picks l (length l).

(** The process-wide numpy generator: a stream of draws and a cursor. *)
Record NpRandom := mkNpRandom { np_draws : nat -> Q; np_cursor : nat }.

Definition np_next (r : NpRandom) : Q * NpRandom :=
  (np_draws r (np_cursor r), mkNpRandom (np_draws r) (S (np_cursor r))).

(** A generator yielding the numbers of [l], then zeros. *)
Definition draws_of (l : list Q) : NpRandom :=
  mkNpRandom (fun n => nth n l 0) 0.

Module Macro.

(** ** Agents ([Midterm_2/agents.py]) *)

Record Household := mkHousehold {
  h_unique_id : nat;
  h_formal : bool;
  savings : Q;
  income : Q;
  consumption_rate : Q;
  expected_inflation : Q;
  interest_rate_sensitivity : Q
}.

Record Firm := mkFirm {
  f_unique_id : nat;
  f_formal : bool;
  production_capacity : Q;
  current_production : Q;
  price_level : Q;
  markup : Q;
  central_bank_influence : Q
}.

Record CentralBank := mkCentralBank {
  cb_unique_id : nat;
  inflation_target : Q;
  interest_rate : Q;
  taylor_inflation_weight : Q;
  taylor_output_weight : Q;
  nominal_rate : Q
}.

(** An entry of the scheduler.  The central bank object is shared between
    the scheduler and the model's [central_bank] attribute: the scheduler
    entry is a reference to that one object, not a copy. *)
Inductive Agent :=
| AgCentralBank
| AgHousehold (h : Household)
| AgFirm (f : Firm).

(** ** The data collector's records *)

Record ModelVars := mkModelVars {
  Inflation : Q;
  Interest_Rate : Q;
  Aggregate_Demand : Q;
  Total_Production : Q;
  Inflation_Gap : Q;
  Formal_Inflation_Expectation : Q;
  Informal_Inflation_Expectation : Q
}.

Inductive TypeName := TCentralBank | THousehold | TFirm.

Record AgentVars := mkAgentVars {
  av_unique_id : nat;
  av_Formal : option bool;
  av_Type : TypeName;
  av_Expected_Inflation : option Q;
  av_Price_Level : option Q;
  av_Savings : option Q
}.

(** ** The model ([Midterm_2/model.py]) *)

Record InflationModel := mkModel {
  num_households : nat;
  num_firms : nat;
  banking_inclusion_rate : Q;
  formal_sector_size : Q;
  current_inflation : Q;
  price_index : Q;
  previous_price_index : Q;
  aggregate_demand : Q;
  total_production : Q;
  price_index_numerator : Q;
  total_production_capacity : Q;
  central_bank : CentralBank;
  schedule : list Agent;
  model_vars : list ModelVars;
  agent_records : list (list AgentVars)
}.

(** Attribute assignments on the model. *)
Definition set_current_inflation (v : Q) (m : InflationModel) :=
  mkModel (num_households m) (num_firms m) (banking_inclusion_rate m)
    (formal_sector_size m) v (price_index m) (previous_price_index m)
    (aggregate_demand m) (total_production m) (price_index_numerator m)
    (total_production_capacity m) (central_bank m) (schedule m)
    (model_vars m) (agent_records m).

Definition set_price_index (v : Q) (m : InflationModel) :=
  mkModel (num_households m) (num_firms m) (banking_inclusion_rate m)
    (formal_sector_size m) (current_inflation m) v (previous_price_index m)
    (aggregate_demand m) (total_production m) (price_index_numerator m)
    (total_production_capacity m) (central_bank m) (schedule m)
    (model_vars m) (agent_records m).

Definition set_previous_price_index (v : Q) (m : InflationModel) :=
  mkModel (num_households m) (num_firms m) (banking_inclusion_rate m)
    (formal_sector_size m) (current_inflation m) (price_index m) v
    (aggregate_demand m) (total_production m) (price_index_numerator m)
    (total_production_capacity m) (central_bank m) (schedule m)
    (model_vars m) (agent_records m).

Definition set_aggregate_demand (v : Q) (m : InflationModel) :=
  mkModel (num_households m) (num_firms m) (banking_inclusion_rate m)
    (formal_sector_size m) (current_inflation m) (price_index m)
    (previous_price_index m) v (total_production m)
    (price_index_numerator m) (total_production_capacity m)
    (central_bank m) (schedule m) (model_vars m) (agent_records m).

Definition set_total_production (v : Q) (m : InflationModel) :=
  mkModel (num_households m) (num_firms m) (banking_inclusion_rate m)
    (formal_sector_size m) (current_inflation m) (price_index m)
    (previous_price_index m) (aggregate_demand m) v
    (price_index_numerator m) (total_production_capacity m)
    (central_bank m) (schedule m) (model_vars m) (agent_records m).

Definition set_price_index_numerator (v : Q) (m : InflationModel) :=
  mkModel (num_households m) (num_firms m) (banking_inclusion_rate m)
    (formal_sector_size m) (current_inflation m) (price_index m)
    (previous_price_index m) (aggregate_demand m) (total_production m) v
    (total_production_capacity m) (central_bank m) (schedule m)
    (model_vars m) (agent_records m).

Definition set_total_production_capacity (v : Q) (m : InflationModel) :=
  mkModel (num_households m) (num_firms m) (banking_inclusion_rate m)
    (formal_sector_size m) (current_inflation m) (price_index m)
    (previous_price_index m) (aggregate_demand m) (total_production m)
    (price_index_numerator m) v (central_bank m) (schedule m)
    (model_vars m) (agent_records m).

Definition set_central_bank (v : CentralBank) (m : InflationModel) :=
  mkModel (num_households m) (num_firms m) (banking_inclusion_rate m)
    (formal_sector_size m) (current_inflation m) (price_index m)
    (previous_price_index m) (aggregate_demand m) (total_production m)
    (price_index_numerator m) (total_production_capacity m) v (schedule m)
    (model_vars m) (agent_records m).

Definition set_schedule (v : list Agent) (m : InflationModel) :=
  mkModel (num_households m) (num_firms m) (banking_inclusion_rate m)
    (formal_sector_size m) (current_inflation m) (price_index m)
    (previous_price_index m) (aggregate_demand m) (total_production m)
    (price_index_numerator m) (total_production_capacity m)
    (central_bank m) v (model_vars m) (agent_records m).

Definition set_collected (mv : list ModelVars) (ar : list (list AgentVars))
  (m : InflationModel) :=
  mkModel (num_households m) (num_firms m) (banking_inclusion_rate m)
    (formal_sector_size m) (current_inflation m) (price_index m)
    (previous_price_index m) (aggregate_demand m) (total_production m)
    (price_index_numerator m) (total_production_capacity m)
    (central_bank m) (schedule m) mv ar.

(** *** Constructors of the agents *)

(** [Household.__init__] *)
Definition Household_init (unique_id : nat) (m : InflationModel)
  (formal : bool) (savings0 income0 : Q) : Household :=
  {| h_unique_id := unique_id;
     h_formal := formal;
     savings := savings0;
     income := income0;
     consumption_rate := 0.8;
     expected_inflation := current_inflation m;
     interest_rate_sensitivity := if formal then 0.5 else 0.1 |}.

(** [Firm.__init__] *)
Definition Firm_init (unique_id : nat) (formal : bool) (capacity : Q) : Firm :=
  {| f_unique_id := unique_id;
     f_formal := formal;
     production_capacity := capacity;
     current_production := capacity * 0.8;
     price_level := 1.0;
     markup := 0.15;
     central_bank_influence := if formal then 0.8 else 0.3 |}.

(** [CentralBank.__init__] *)
Definition CentralBank_init (unique_id : nat) (target : Q) : CentralBank :=
  {| cb_unique_id := unique_id;
     inflation_target := target;
     interest_rate := 0.05;
     taylor_inflation_weight := 1.5;
     taylor_output_weight := 0.5;
     nominal_rate := 0.0642 |}.

(** *** Derived accessors of the model *)

Definition households (m : InflationModel) : list Household :=
  omap (fun a => match a with AgHousehold h => Some h | _ => None end)
       (schedule m).

Definition mean_expectation (m : InflationModel) (hs : list Household) : Q :=
  match hs with
  | [] => current_inflation m
  | _ => py_sum (map expected_inflation hs) / inject_Z (Z.of_nat (length hs))
  end.

(** [get_average_inflation_expectation] *)
Definition get_average_inflation_expectation (m : InflationModel) : Q :=
  mean_expectation m (households m).

(** [get_formal_inflation_expectation] *)
Definition get_formal_inflation_expectation (m : InflationModel) : Q :=
  mean_expectation m (filter (fun h => h_formal h = true) (households m)).

(** [get_informal_inflation_expectation] *)
Definition get_informal_inflation_expectation (m : InflationModel) : Q :=
  mean_expectation m (filter (fun h => h_formal h = false) (households m)).

(** *** Agent steps *)

(** The local [adjusted_consumption] of [Household.step]. *)
Definition Household_consumption (h : Household) (m : InflationModel) : Q :=
  let base_consumption := income h * consumption_rate h in
  let interest_effect :=
    - interest_rate_sensitivity h * interest_rate (central_bank m) in
  let adjusted_consumption := base_consumption * (1 + interest_effect) in
  py_max adjusted_consumption (0.2 * income h).

(** [Household.step]: the household after its step and the model with its
    consumption added to aggregate demand. *)
Definition Household_step (h : Household) (m : InflationModel)
  : Household * InflationModel :=
  let target_gap := inflation_target (central_bank m) - expected_inflation h in
  let adjustment_speed := if h_formal h then 0.5 else 0.2 in
  let expected' := expected_inflation h + adjustment_speed * target_gap in
  let adjusted_consumption := Household_consumption h m in
  ({| h_unique_id := h_unique_id h;
      h_formal := h_formal h;
      savings := savings h + (income h - adjusted_consumption);
      income := income h;
      consumption_rate := consumption_rate h;
      expected_inflation := expected';
      interest_rate_sensitivity := interest_rate_sensitivity h |},
   set_aggregate_demand (aggregate_demand m + adjusted_consumption) m).

(** The local [demand_pressure] of [Firm.step]. *)
Definition Firm_demand_pressure (m : InflationModel) : option Q :=
  q ← py_div (aggregate_demand m) (total_production_capacity m);
  Some (q - 1).

(** [Firm.step] *)
Definition Firm_step (f : Firm) (m : InflationModel)
  : option (Firm * InflationModel) :=
  demand_pressure ← Firm_demand_pressure m;
  let capacity_change := 0.1 * demand_pressure in
  utilization ← py_div (current_production f) (production_capacity f);
  let new_utilization := utilization + capacity_change in
  let new_utilization := py_max 0.5 (py_min new_utilization 1.0) in
  let production := new_utilization * production_capacity f in
  let m1 := set_total_production (total_production m + production) m in
  let cost_push := py_max 0 demand_pressure * 0.5 in
  let aggregate_expectations := get_average_inflation_expectation m1 in
  let expectation_effect := 0.3 * aggregate_expectations in
  let cb_target := inflation_target (central_bank m1) in
  let target_adjustment :=
    central_bank_influence f * (cb_target - current_inflation m1) in
  let price_adjustment := cost_push + expectation_effect + target_adjustment in
  let bounded_adjustment := py_max (-0.05) (py_min price_adjustment 0.1) in
  let price := price_level f * (1 + bounded_adjustment) in
  Some ({| f_unique_id := f_unique_id f;
           f_formal := f_formal f;
           production_capacity := production_capacity f;
           current_production := production;
           price_level := price;
           markup := markup f;
           central_bank_influence := central_bank_influence f |},
        set_price_index_numerator
          (price_index_numerator m1 + price * production) m1).

(** [CentralBank.step], on the bank object held by the model. *)
Definition CentralBank_step (m : InflationModel) : option InflationModel :=
  let cb := central_bank m in
  let inflation_gap := current_inflation m - inflation_target cb in
  q ← py_div (aggregate_demand m) (total_production m);
  let output_gap := q - 1 in
  let target_rate :=
    nominal_rate cb + current_inflation m
    + taylor_inflation_weight cb * inflation_gap
    + taylor_output_weight cb * output_gap in
  let adjustment_speed := 0.5 in
  let rate := interest_rate cb + adjustment_speed * (target_rate - interest_rate cb) in
  let rate := py_max 0.01 (py_min rate 0.20) in
  Some (set_central_bank
          {| cb_unique_id := cb_unique_id cb;
             inflation_target := inflation_target cb;
             interest_rate := rate;
             taylor_inflation_weight := taylor_inflation_weight cb;
             taylor_output_weight := taylor_output_weight cb;
             nominal_rate := nominal_rate cb |} m).

(** *** The scheduler (mesa's [RandomActivation]) *)

(** The step of the agent registered at index [i] of the scheduler. *)
Definition activate (i : nat) (m : InflationModel) : option InflationModel :=
  match schedule m !! i with
  | None => Some m
  | Some AgCentralBank => CentralBank_step m
  | Some (AgHousehold h) =>
      let '(h', m') := Household_step h m in
      Some (set_schedule (<[i := AgHousehold h']> (schedule m')) m')
  | Some (AgFirm f) =>
      '(f', m') ← Firm_step f m;
      Some (set_schedule (<[i := AgFirm f']> (schedule m')) m')
  end.

(** The agents' steps in a given activation order; the first exception
    aborts the tick. *)
Fixpoint run_agents (order : list nat) (m : InflationModel)
  : option InflationModel :=
  match order with
  | [] => Some m
  | i :: rest => m' ← activate i m; run_agents rest m'
  end.

(** The order drawn for one tick: a shuffle of the registered agents. *)
Definition activation_order (picks : list nat) (m : InflationModel) : list nat :=
  shuffle picks (seq 0 (length (schedule m))).

(** [self.schedule.step()]; the scheduler's own step counter, which nothing
    reads, is left out. *)
Definition schedule_step (picks : list nat) (m : InflationModel)
  : option InflationModel :=
  run_agents (activation_order picks m) m.

(** *** Data collection (mesa's [DataCollector.collect]) *)

Definition model_reporters (m : InflationModel) : ModelVars :=
  {| Inflation := current_inflation m;
     Interest_Rate := interest_rate (central_bank m);
     Aggregate_Demand := aggregate_demand m;
     Total_Production := total_production m;
     Inflation_Gap := current_inflation m - inflation_target (central_bank m);
     Formal_Inflation_Expectation := get_formal_inflation_expectation m;
     Informal_Inflation_Expectation := get_informal_inflation_expectation m |}.

Definition agent_reporters (m : InflationModel) (a : Agent) : AgentVars :=
  match a with
  | AgCentralBank =>
      mkAgentVars (cb_unique_id (central_bank m)) None TCentralBank
                  None None None
  | AgHousehold h =>
      mkAgentVars (h_unique_id h) (Some (h_formal h)) THousehold
                  (Some (expected_inflation h)) None (Some (savings h))
  | AgFirm f =>
      mkAgentVars (f_unique_id f) (Some (f_formal f)) TFirm
                  None (Some (price_level f)) None
  end.

Definition collect (m : InflationModel) : InflationModel :=
  set_collected (model_vars m ++ [model_reporters m])
                (agent_records m ++ [map (agent_reporters m) (schedule m)]) m.

(** *** [InflationModel.__init__] *)

Record Config := mkConfig {
  cfg_num_households : nat;
  cfg_num_firms : nat;
  cfg_banking_inclusion_rate : Q;
  cfg_formal_sector_size : Q;
  cfg_inflation_target : Q;
  cfg_initial_inflation : Q;
  cfg_inflation_shock_size : Q
}.

Definition default_config : Config :=
  mkConfig 100 20 0.6 0.7 0.03 0.08 0.0.

(** The loop creating households [i], [i+1], ..., [k] of them. *)
Fixpoint create_households (cfg : Config) (k i : nat) (rng : NpRandom)
  (m : InflationModel) : InflationModel * NpRandom :=
  match k with
  | O => (m, rng)
  | S k' =>
      let '(u, rng) := np_next rng in
      let is_formal := Qltb u (cfg_banking_inclusion_rate cfg) in
      let '(base_income, rng) := np_next rng in
      let income_factor := if is_formal then 1.2 else 0.8 in
      let '(s, rng) := np_next rng in
      let h := Household_init i m is_formal (s * income_factor)
                              (base_income * income_factor) in
      create_households cfg k' (S i) rng
        (set_schedule (schedule m ++ [AgHousehold h]) m)
  end.

(** The loop creating firms. *)
Fixpoint create_firms (cfg : Config) (k i : nat) (rng : NpRandom)
  (m : InflationModel) : InflationModel * NpRandom :=
  match k with
  | O => (m, rng)
  | S k' =>
      let '(u, rng) := np_next rng in
      let is_formal := Qltb u (cfg_formal_sector_size cfg) in
      let '(base_capacity, rng) := np_next rng in
      let capacity_factor := if is_formal then 1.3 else 0.7 in
      let capacity := base_capacity * capacity_factor in
      let f := Firm_init i is_formal capacity in
      let m := set_schedule (schedule m ++ [AgFirm f]) m in
      create_firms cfg k' (S i) rng
        (set_total_production_capacity
           (total_production_capacity m + capacity) m)
  end.

Definition InflationModel_init (cfg : Config) (rng : NpRandom)
  : InflationModel * NpRandom :=
  let m :=
    {| num_households := cfg_num_households cfg;
       num_firms := cfg_num_firms cfg;
       banking_inclusion_rate := cfg_banking_inclusion_rate cfg;
       formal_sector_size := cfg_formal_sector_size cfg;
       current_inflation := cfg_initial_inflation cfg;
       price_index := 1.0;
       previous_price_index := 1.0;
       aggregate_demand := 0;
       total_production := 0;
       price_index_numerator := 0;
       total_production_capacity := 0;
       central_bank := CentralBank_init 0 (cfg_inflation_target cfg);
       schedule := [AgCentralBank];
       model_vars := [];
       agent_records := [] |} in
  let '(m, rng) := create_households cfg (cfg_num_households cfg) 1 rng m in
  let '(m, rng) :=
    create_firms cfg (cfg_num_firms cfg) (cfg_num_households cfg + 1) rng m in
  let m :=
    if Qltb 0 (cfg_inflation_shock_size cfg)
    then set_current_inflation
           (current_inflation m + cfg_inflation_shock_size cfg) m
    else m in
  (collect m, rng).

(** *** [InflationModel.step] *)

Definition reset_aggregates (m : InflationModel) : InflationModel :=
  set_price_index_numerator 0
    (set_total_production 0 (set_aggregate_demand 0 m)).

(** The price index and inflation computed after the agents' steps. *)
Definition finalize (m : InflationModel) : option InflationModel :=
  let m := set_previous_price_index (price_index m) m in
  let m :=
    if Qltb 0 (total_production m)
    then set_price_index (price_index_numerator m / total_production m) m
    else m in
  q ← py_div (price_index m) (previous_price_index m);
  Some (set_current_inflation (q - 1) m).

Definition step (picks : list nat) (m : InflationModel)
  : option InflationModel :=
  m ← schedule_step picks (reset_aggregates m);
  m ← finalize m;
  Some (collect m).

(** A run: the model stepped once per element of [ticks]. *)
Fixpoint run (ticks : list (list nat)) (m : InflationModel)
  : option InflationModel :=
  match ticks with
  | [] => Some m
  | picks :: rest => m' ← step picks m; run rest m'
  end.

(** ** Runs and observations used in the statements *)

(** The states a run of a model built from [cfg] goes through: the
    constructed model, then one state per completed tick. *)
Inductive reachable (cfg : Config) : InflationModel -> Prop :=
| reachable_init rng :
    reachable cfg (fst (InflationModel_init cfg rng))
| reachable_step m picks m' :
    reachable cfg m -> step picks m = Some m' -> reachable cfg m'.

(** The values [adjusted_consumption] takes in the steps of the households
    activated by [order], in order of activation. *)
Fixpoint consumption_log (order : list nat) (m : InflationModel) : list Q :=
  match order with
  | [] => []
  | i :: rest =>
      match activate i m with
      | None => []
      | Some m' =>
          match schedule m !! i with
          | Some (AgHousehold h) =>
              Household_consumption h m :: consumption_log rest m'
          | _ => consumption_log rest m'
          end
      end
  end.

(** The next [n] draws of two generators are the same. *)
Definition same_draws (n : nat) (r1 r2 : NpRandom) : Prop :=
  forall j, (j < n)%nat ->
    np_draws r1 (np_cursor r1 + j)%nat = np_draws r2 (np_cursor r2 + j)%nat.

(** The draws a construction consumes: three per household, two per firm. *)
Definition draws_consumed (cfg : Config) : nat :=
  (3 * cfg_num_households cfg + 2 * cfg_num_firms cfg)%nat.

(** What [Household.__init__] fixes and no step changes. *)
Definition household_params (h : Household) : Prop :=
  consumption_rate h == 0.8
  /\ interest_rate_sensitivity h == (if h_formal h then 0.5 else 0.1).

(** What the loops creating households and firms leave alone. *)
Definition construction_frame (m m' : InflationModel) : Prop :=
  current_inflation m' = current_inflation m
  /\ price_index m' = price_index m
  /\ previous_price_index m' = previous_price_index m
  /\ aggregate_demand m' = aggregate_demand m
  /\ total_production m' = total_production m
  /\ price_index_numerator m' = price_index_numerator m
  /\ central_bank m' = central_bank m
  /\ model_vars m' = model_vars m
  /\ agent_records m' = agent_records m
  /\ exists l, schedule m' = schedule m ++ l.

(** The model just before the shock is applied and the first snapshot is
    taken. *)
Definition populated (cfg : Config) (rng : NpRandom) : InflationModel :=
  let m :=
    {| num_households := cfg_num_households cfg;
       num_firms := cfg_num_firms cfg;
       banking_inclusion_rate := cfg_banking_inclusion_rate cfg;
       formal_sector_size := cfg_formal_sector_size cfg;
       current_inflation := cfg_initial_inflation cfg;
       price_index := 1.0;
       previous_price_index := 1.0;
       aggregate_demand := 0;
       total_production := 0;
       price_index_numerator := 0;
       total_production_capacity := 0;
       central_bank := CentralBank_init 0 (cfg_inflation_target cfg);
       schedule := [AgCentralBank];
       model_vars := [];
       agent_records := [] |} in
  let mr := create_households cfg (cfg_num_households cfg) 1 rng m in
  fst (create_firms cfg (cfg_num_firms cfg) (cfg_num_households cfg + 1)
                    (snd mr) (fst mr)).

(** The class of a scheduler entry. *)
Definition kind (a : Agent) : TypeName :=
  match a with
  | AgCentralBank => TCentralBank
  | AgHousehold _ => THousehold
  | AgFirm _ => TFirm
  end.

(** What no agent's step changes. *)
Definition activation_frame (m m' : InflationModel) : Prop :=
  current_inflation m' = current_inflation m
  /\ price_index m' = price_index m
  /\ previous_price_index m' = previous_price_index m
  /\ total_production_capacity m' = total_production_capacity m
  /\ model_vars m' = model_vars m
  /\ agent_records m' = agent_records m
  /\ inflation_target (central_bank m') = inflation_target (central_bank m)
  /\ kind <$> schedule m' = kind <$> schedule m.

(** The bounds of the policy rate. *)
Definition rate_in_bounds (r : Q) : Prop := 0.01 <= r /\ r <= 0.20.

(** *** Concrete models *)

(** One household and one firm. *)
Definition small_config : Config := mkConfig 1 1 0.6 0.7 0.03 0.08 0.

Definition small_model : InflationModel :=
  fst (InflationModel_init small_config (draws_of [0.5; 50; 100; 0.5; 100])).

(** The same configuration with another income drawn for the household. *)
Definition small_model' : InflationModel :=
  fst (InflationModel_init small_config (draws_of [0.5; 40; 100; 0.5; 100])).

(** Picks for which the household is activated first, then the firm, then
    the central bank. *)
Definition household_firm_bank : list nat := [1; 1; 0]%nat.

(** Picks for which the firm is activated first, then the bank, then the
    household. *)
Definition firm_bank_household : list nat := [2; 0; 0]%nat.

(** No household, one firm whose capacity is drawn negative. *)
Definition negative_capacity_model : InflationModel :=
  fst (InflationModel_init (mkConfig 0 1 0.6 0.7 0.03 0.08 0)
                           (draws_of [0.5; -10])).

(** Picks for which the firm is activated before the bank. *)
Definition firm_bank : list nat := [1; 0]%nat.

(** The default configuration with a negative shock. *)
Definition negative_shock_config : Config :=
  mkConfig 100 20 0.6 0.7 0.03 0.08 (-0.02).

(** ** The runner and the dashboard ([Midterm_2/app.py], [Midterm_2/dashboad.py]) *)


(** [series.iloc[a:b]] for [0 <= a <= b]. *)
Definition iloc {A : Type} (series : list A) (a b : nat) : list A :=
  take (b - a) (drop a series).

(** [range(a, b)] *)
Definition py_range (a b : nat) : list nat := seq a (b - a).

(** Half a percentage point. *)
Definition tolerance : Q := 0.005.

(** The loop looking for the first [step] whose five preceding values pass
    the test [near]; it yields [step - 5]. *)
Fixpoint first_stable (near : list Q -> bool) (series : list Q)
  (steps : list nat) : option nat :=
  match steps with
  | [] => None
  | step :: rest =>
      if near (iloc series (step - 5) step)
      then Some (step - 5)%nat
      else first_stable near series rest
  end.

(** The test of [run_banking_inclusion_experiments] on a window of the
    Inflation_Gap series. *)
Definition gaps_near (recent_gap : list Q) : bool :=
  forallb (fun gap => Qltb (Qabs gap) tolerance) recent_gap.


(** [steps_to_target] as [app.py] computes it from the Inflation_Gap
    series. *)
Definition steps_to_target (gaps : list Q) : option nat :=
  first_stable gaps_near gaps
    (py_range (Nat.min 5 (length gaps)) (length gaps)).


(** ** Further observations used in the statements *)

(** A household stepped once in each of the model states [ms]. *)
Fixpoint Household_steps (ms : list InflationModel) (h : Household)
  : Household :=
  match ms with
  | [] => h
  | m :: rest => Household_steps rest (fst (Household_step h m))
  end.

(** The speed at which [Household.step] adjusts expectations. *)
Definition adjustment_speed (h : Household) : Q :=
  if h_formal h then 0.5 else 0.2.

(** The production and the sales (price times production) a scheduler
    entry stands for; zero for an entry that is not a firm. *)
Definition agent_production (a : Agent) : Q :=
  match a with AgFirm f => current_production f | _ => 0 end.

Definition agent_sales (a : Agent) : Q :=
  match a with AgFirm f => price_level f * current_production f | _ => 0 end.

Definition agent_capacity (a : Agent) : Q :=
  match a with AgFirm f => production_capacity f | _ => 0 end.

(** A firm of positive capacity and price whose production is between half
    its capacity and its capacity. *)
Definition firm_ok (f : Firm) : Prop :=
  0 < production_capacity f
  /\ 0 < price_level f
  /\ 0.5 * production_capacity f <= current_production f
  /\ current_production f <= production_capacity f.

Definition agent_ok (a : Agent) : Prop :=
  match a with AgFirm f => firm_ok f | _ => True end.

(** A model whose firms are as above, with a positive price index and a
    positive total capacity. *)
Definition well_formed (m : InflationModel) : Prop :=
  Forall agent_ok (schedule m)
  /\ 0 < price_index m
  /\ 0 < total_production_capacity m.

(** In the activation order, the central bank comes before every firm. *)
Fixpoint bank_before_firms (sched : list Agent) (order : list nat) : bool :=
  match order with
  | [] => false
  | i :: rest =>
      match sched !! i with
      | Some AgCentralBank => true
      | Some (AgFirm _) => false
      | _ => bank_before_firms sched rest
      end
  end.

(** The scheduler entries of a model built with [nh] households and [nf]
    firms, by class. *)
Definition population (nh nf : nat) : list TypeName :=
  TCentralBank :: replicate nh THousehold ++ replicate nf TFirm.

Definition agent_id (m : InflationModel) (a : Agent) : nat :=
  match a with
  | AgCentralBank => cb_unique_id (central_bank m)
  | AgHousehold h => h_unique_id h
  | AgFirm f => f_unique_id f
  end.

(** The population [kinds] with identities 0 .. n-1, and [k] collected
    snapshots, each agent table listing those identities. *)
Definition series_inv (kinds : list TypeName) (n k : nat)
  (m : InflationModel) : Prop :=
  kind <$> schedule m = kinds
  /\ agent_id m <$> schedule m = seq 0 n
  /\ length (model_vars m) = k
  /\ length (agent_records m) = k
  /\ Forall (fun rows => av_unique_id <$> rows = seq 0 n) (agent_records m).

End Macro.

Module Schelling.

(** ** The agent ([schelling/agents.py]) *)

(** A cell of the grid. *)
Definition Pos : Type := (nat * nat)%type.

Record SchellingAgent := mkAgent {
  unique_id : nat;
  income_class : Q;
  type : Q;
  threshold : Q;
  past_moves : nat;
  adaptive : bool;
  move_cost : Q;
  pos : Pos
}.

(** The values an evaluation of a location can take: a float or
    [-float('inf')]. *)
Inductive Score := NegInf | Fin (q : Q).

(** [a > b] on scores. *)
Definition score_gt (a b : Score) : bool :=
  match a, b with
  | NegInf, _ => false
  | Fin _, NegInf => true
  | Fin x, Fin y => Qltb y x
  end.

(** ** The model ([schelling/model.py]) *)

(** The grid is mesa's [SingleGrid] on a torus: at most one agent per cell,
    and each agent records its cell in [pos].  The grid's content is read
    off the agents' positions. *)
Record SchellingModel := mkModel {
  width : nat;
  height : nat;
  density : Q;
  radius : nat;
  agents : list SchellingAgent;
  happy : nat;
  running : bool;
  model_vars : list (nat * Q)
}.

Definition set_agents (v : list SchellingAgent) (m : SchellingModel) :=
  mkModel (width m) (height m) (density m) (radius m) v (happy m)
          (running m) (model_vars m).

Definition set_happy (v : nat) (m : SchellingModel) :=
  mkModel (width m) (height m) (density m) (radius m) (agents m) v
          (running m) (model_vars m).

Definition set_running (v : bool) (m : SchellingModel) :=
  mkModel (width m) (height m) (density m) (radius m) (agents m) (happy m)
          v (model_vars m).

Definition set_model_vars (v : list (nat * Q)) (m : SchellingModel) :=
  mkModel (width m) (height m) (density m) (radius m) (agents m) (happy m)
          (running m) v.

(** *** The grid *)

Definition pos_eqb (p q : Pos) : bool :=
  Nat.eqb (fst p) (fst q) && Nat.eqb (snd p) (snd q).

(** Distance between two coordinates on a ring of [n] cells. *)
Definition ring_dist (n a b : nat) : nat :=
  Nat.min ((a + n - b) mod n) ((b + n - a) mod n).

(** [c] lies in the Moore neighbourhood of [p], wrapped around the edges,
    the centre excluded. *)
Definition in_neighborhood (m : SchellingModel) (p c : Pos) : bool :=
  negb (pos_eqb p c)
  && Nat.leb (ring_dist (width m) (fst p) (fst c)) (radius m)
  && Nat.leb (ring_dist (height m) (snd p) (snd c)) (radius m).

(** [grid.get_neighbors(p, moore=True, radius=radius, include_center=False)] *)
Definition get_neighbors (m : SchellingModel) (p : Pos) : list SchellingAgent :=
  filter (fun a => in_neighborhood m p (pos a) = true) (agents m).

(** [grid.coord_iter()]: the cells, column by column. *)
Definition coords (w h : nat) : list Pos :=
  x ← seq 0 w; (fun y => (x, y)) <$> seq 0 h.

Definition occupied (m : SchellingModel) (p : Pos) : bool :=
  existsb (fun a => pos_eqb (pos a) p) (agents m).

(** [grid.empties] *)
Definition empties (m : SchellingModel) : list Pos :=
  filter (fun p => occupied m p = false) (coords (width m) (height m)).

(** *** Agent behaviour *)

(** The test [abs(n.type - self.type) <= 0.1]. *)
Definition alike (a n : SchellingAgent) : bool :=
  Qle_bool (Qabs (type n - type a)) 0.1.

Definition share_alike (a : SchellingAgent) (neighbors : list SchellingAgent) : Q :=
  let similar := length (filter (fun n => alike a n = true) neighbors) in
  inject_Z (Z.of_nat similar) / inject_Z (Z.of_nat (length neighbors)).

(** [SchellingAgent.is_satisfied] *)
Definition is_satisfied (a : SchellingAgent) (neighbors : list SchellingAgent)
  : bool :=
  match neighbors with
  | [] => false
  | _ => Qle_bool (threshold a) (share_alike a neighbors)
  end.

(** [SchellingAgent.evaluate_location] *)
Definition evaluate_location (a : SchellingAgent) (m : SchellingModel)
  (p : Pos) : option Score :=
  match get_neighbors m p with
  | [] => Some NegInf
  | neighbors =>
      inv ← py_div 1 (type a + 0.01);
      let effective_cost := move_cost a * inv in
      Some (Fin (share_alike a neighbors - effective_cost))
  end.

(** The loop of [move] over the candidates, keeping the first best. *)
Fixpoint best_candidate (a : SchellingAgent) (m : SchellingModel)
  (candidates : list Pos) (best_pos : option Pos) (best_eval : Score)
  : option (option Pos) :=
  match candidates with
  | [] => Some best_pos
  | p :: rest =>
      eval ← evaluate_location a m p;
      if score_gt eval best_eval
      then best_candidate a m rest (Some p) eval
      else best_candidate a m rest best_pos best_eval
  end.

(** The agent after [grid.move_agent] and the bookkeeping that follows. *)
Definition relocate (a : SchellingAgent) (p : Pos) : SchellingAgent :=
  let moves := S (past_moves a) in
  {| unique_id := unique_id a;
     income_class := income_class a;
     type := type a;
     threshold :=
       if adaptive a && Nat.leb 10 moves
       then py_min 1.0 (threshold a - 0.01)
       else threshold a;
     past_moves := moves;
     adaptive := adaptive a;
     move_cost := move_cost a;
     pos := p |}.

(** [SchellingAgent.move], for the agent at index [i] of [model.agents];
    [picks] drives [random.sample]. *)
Definition move (picks : list nat) (i : nat) (m : SchellingModel)
  : option SchellingModel :=
  match agents m !! i with
  | None => Some m
  | Some a =>
      let neighbors := get_neighbors m (pos a) in
      if is_satisfied a neighbors
      then Some (set_happy (S (happy m)) m)
      else
        let empty_cells := empties m in
        let candidates :=
          draw_from picks empty_cells (Nat.min (length empty_cells) 10) in
        best_pos ← best_candidate a m candidates None NegInf;
        match best_pos with
        | Some p => Some (set_agents (<[i := relocate a p]> (agents m)) m)
        | None => Some m
        end
  end.

(** [agents.shuffle_do("move")] in a given order; [sample_picks i] are the
    picks of the agent at index [i]. *)
Fixpoint run_moves (sample_picks : nat -> list nat) (order : list nat)
  (m : SchellingModel) : option SchellingModel :=
  match order with
  | [] => Some m
  | i :: rest => m' ← move (sample_picks i) i m; run_moves sample_picks rest m'
  end.

(** *** Data collection *)

Definition share_happy (m : SchellingModel) : Q :=
  if Nat.ltb 0 (length (agents m))
  then inject_Z (Z.of_nat (happy m)) / inject_Z (Z.of_nat (length (agents m)))
       * 100
  else 0.

Definition collect (m : SchellingModel) : SchellingModel :=
  set_model_vars (model_vars m ++ [(happy m, share_happy m)]) m.

(** *** [SchellingModel.step] *)

Definition activation_order (picks : list nat) (m : SchellingModel) : list nat :=
  shuffle picks (seq 0 (length (agents m))).

Definition step (order_picks : list nat) (sample_picks : nat -> list nat)
  (m : SchellingModel) : option SchellingModel :=
  let m := set_happy 0 m in
  m ← run_moves sample_picks (activation_order order_picks m) m;
  let m := collect m in
  Some (set_running (Nat.ltb (happy m) (length (agents m))) m).

(** *** Construction *)

(** The generators an agent's constructor draws from: numpy's global one
    ([np.random.lognormal]) and the [random] module's global one
    ([random.uniform]).  Neither is the model's own seeded generator. *)
Record Globals := mkGlobals { g_numpy : NpRandom; g_random : NpRandom }.

(** [SchellingAgent.__init__]; the agent is then placed at [p]. *)
Definition SchellingAgent_init (uid : nat) (p : Pos) (g : Globals)
  : option (SchellingAgent * Globals) :=
  let '(skw_income, np) := np_next (g_numpy g) in
  cls ← py_div skw_income (1 + skw_income);
  let '(u, py) := np_next (g_random g) in
  Some ({| unique_id := uid;
           income_class := cls;
           type := cls;
           threshold := 0 + (1 - 0) * u;
           past_moves := 0;
           adaptive := false;
           move_cost := 1;
           pos := p |},
        mkGlobals np py).

(** The loop of [__init__] over the cells; [seeded] is the model's own
    generator, a function of the seed. *)
Fixpoint place_agents (cells : list Pos) (seeded : NpRandom) (g : Globals)
  (m : SchellingModel) : option (SchellingModel * Globals) :=
  match cells with
  | [] => Some (m, g)
  | p :: rest =>
      let '(u, seeded) := np_next seeded in
      if Qltb u (density m)
      then
        '(a, g) ← SchellingAgent_init (S (length (agents m))) p g;
        place_agents rest seeded g (set_agents (agents m ++ [a]) m)
      else place_agents rest seeded g m
  end.

Record Config := mkConfig {
  cfg_width : nat;
  cfg_height : nat;
  cfg_density : Q;
  cfg_radius : nat;
  cfg_seed : nat -> Q
}.

(** [SchellingModel.__init__].  The seed is represented by the stream of
    numbers that [random.Random(seed)] yields. *)
Definition SchellingModel_init (cfg : Config) (g : Globals)
  : option (SchellingModel * Globals) :=
  let m :=
    {| width := cfg_width cfg;
       height := cfg_height cfg;
       density := cfg_density cfg;
       radius := cfg_radius cfg;
       agents := [];
       happy := 0;
       running := true;
       model_vars := [] |} in
  '(m, g) ← place_agents (coords (width m) (height m))
                         (mkNpRandom (cfg_seed cfg) 0) g m;
  Some (collect m, g).

(** ** Runs and concrete models used in the statements *)

(** [m'] is reached from [m] by completed ticks, whatever the shuffles and
    the samples. *)
Inductive runs_to (m : SchellingModel) : SchellingModel -> Prop :=
| runs_to_refl : runs_to m m
| runs_to_step m1 m2 order_picks sample_picks :
    runs_to m m1 -> step order_picks sample_picks m1 = Some m2 ->
    runs_to m m2.

(** An agent's identity and threshold. *)
Definition id_threshold (a : SchellingAgent) : nat * Q :=
  (unique_id a, threshold a).

(** The flag [adaptive] is off. *)
Definition not_adaptive (a : SchellingAgent) : Prop := adaptive a = false.

(** A 3 x 3 grid on which the seed leaves every cell but the middle one
    empty. *)
Definition lone_config : Config :=
  mkConfig 3 3 0.5 1 (fun n => if Nat.eqb n 4 then 0 else 1).

(** A 3 x 3 grid on which the seed occupies the first two cells. *)
Definition pair_config : Config :=
  mkConfig 3 3 0.5 1 (fun n => if Nat.ltb n 2 then 0 else 1).

(** Global generators whose agents all get income class 1/2 and a
    threshold of 0. *)
Definition zero_thresholds : Globals :=
  mkGlobals (draws_of [1; 1]) (draws_of [0; 0]).

(** Global generators whose agents get a threshold of 3/4; the first two
    income classes are 1/2 and 3/4. *)
Definition high_thresholds : Globals :=
  mkGlobals (draws_of [1; 3]) (draws_of [0.75; 0.75]).

(** Global generators whose agents get a threshold of 3/4 and the same
    income class 1/2. *)
Definition high_thresholds_alike : Globals :=
  mkGlobals (draws_of [1; 1]) (draws_of [0.75; 0.75]).

(** The sample picks that always take the first cell left. *)
Definition first_cells : nat -> list nat := fun _ => [].

(** ** Further observations used in the statements *)

(** Every agent stands on a cell of the grid and no two agents share a
    cell (mesa's [SingleGrid]). *)
Definition grid_ok (m : SchellingModel) : Prop :=
  NoDup (pos <$> agents m)
  /\ Forall (fun a => pos a ∈ coords (width m) (height m)) (agents m).

(** What no operation assigns after construction. *)
Definition agent_constants (a : SchellingAgent) : nat * Q * Q * Q :=
  (unique_id a, income_class a, type a, move_cost a).

(** An agent is as it was, or has moved since. *)
Definition unchanged_or_moved (a a' : SchellingAgent) : Prop :=
  a' = a \/ (past_moves a < past_moves a')%nat.

(** A run: one step per element of [ticks], each giving the picks of the
    shuffle and of the agents' samples. *)
Fixpoint run (ticks : list (list nat * (nat -> list nat)))
  (m : SchellingModel) : option SchellingModel :=
  match ticks with
  | [] => Some m
  | (order_picks, sample_picks) :: rest =>
      m' ← step order_picks sample_picks m; run rest m'
  end.

(** What the constructor guarantees of an agent's income class when the
    log-normal draw is positive. *)
Definition class_ok (a : SchellingAgent) : Prop :=
  0 < type a /\ type a < 1 /\ income_class a = type a.

(** [a <= b] on scores. *)
Definition score_le (a b : Score) : Prop :=
  match a, b with
  | NegInf, _ => True
  | Fin _, NegInf => False
  | Fin x, Fin y => x <= y
  end.


(** A 3 x 3 grid with density 0. *)
Definition empty_config : Config :=
  mkConfig 3 3 0 1 (fun _ => 0.5).

End Schelling.
(** * Properties *)

(** Destructs the first binding of a successful computation. *)
Ltac bind_inv H :=
  match type of H with
  | mbind _ ?o = Some _ =>
      let E := fresh "E" in
      destruct o eqn:E; cbn [mbind option_bind] in H; [|discriminate H]
  end.

(** ** Python arithmetic *)

Section PyArith.

Implicit Types a b x lo hi q : Q.

Lemma Qltb_true a b : Qltb a b = true <-> a < b.
Proof.
  unfold Qltb. rewrite negb_true_iff. split.
  - intros H. apply Qnot_le_lt. intros Hle.
    apply Qle_bool_iff in Hle. congruence.
  - intros H. destruct (Qle_bool b a) eqn:E; [|reflexivity].
    apply Qle_bool_iff in E. lra.
Qed.

Lemma Qltb_false a b : Qltb a b = false <-> b <= a.
Proof. unfold Qltb. rewrite negb_false_iff. apply Qle_bool_iff. Qed.

Lemma py_max_cases a b :
  (a < b /\ py_max a b = b) \/ (b <= a /\ py_max a b = a).
Proof.
  unfold py_max. destruct (Qltb a b) eqn:E.
  - left. split; [by apply Qltb_true | reflexivity].
  - right. split; [by apply Qltb_false | reflexivity].
Qed.

Lemma py_min_cases a b :
  (b < a /\ py_min a b = b) \/ (a <= b /\ py_min a b = a).
Proof.
  unfold py_min. destruct (Qltb b a) eqn:E.
  - left. split; [by apply Qltb_true | reflexivity].
  - right. split; [by apply Qltb_false | reflexivity].
Qed.

Lemma py_max_Qmax a b : py_max a b == Qmax a b.
Proof.
  destruct (py_max_cases a b) as [[H ->]|[H ->]]; symmetry.
  - apply Q.max_r. lra.
  - apply Q.max_l. lra.
Qed.

Lemma py_max_ge_r a b : b <= py_max a b.
Proof. destruct (py_max_cases a b) as [[H ->]|[H ->]]; lra. Qed.

(** [max(lo, min(x, hi))] lands in [[lo, hi]]. *)
Lemma clamp_bounds lo hi x :
  lo <= hi -> lo <= py_max lo (py_min x hi) <= hi.
Proof.
  intros Hlh.
  destruct (py_min_cases x hi) as [[H1 ->]|[H1 ->]];
    [destruct (py_max_cases lo hi) as [[H2 ->]|[H2 ->]]
    |destruct (py_max_cases lo x) as [[H2 ->]|[H2 ->]]]; lra.
Qed.

Lemma py_div_Some a b q : py_div a b = Some q -> ~ b == 0 /\ q = a / b.
Proof.
  unfold py_div. destruct (Qeq_bool b 0) eqn:E; [discriminate|].
  intros [= <-]. split; [|reflexivity]. by apply Qeq_bool_neq.
Qed.

Lemma py_div_None a b : py_div a b = None <-> b == 0.
Proof.
  unfold py_div. destruct (Qeq_bool b 0) eqn:E.
  - split; [intros _; by apply Qeq_bool_iff | reflexivity].
  - split; [discriminate|]. intros H. apply Qeq_bool_iff in H. congruence.
Qed.

Lemma py_div_nonzero a b : ~ b == 0 -> py_div a b = Some (a / b).
Proof.
  intros H. destruct (py_div a b) eqn:E.
  - apply py_div_Some in E as [_ ->]. reflexivity.
  - apply py_div_None in E. contradiction.
Qed.

End PyArith.

Module MacroTheory.
Import Macro.

(** ** Households *)

Lemma Household_init_params i m formal s inc :
  household_params (Household_init i m formal s inc).
Proof. split; reflexivity. Qed.

Lemma Household_step_params h m :
  household_params h -> household_params (fst (Household_step h m)).
Proof. intros H. exact H. Qed.

(** C4.  A household's step consumes
    max(income*0.8*(1 - sensitivity*interest_rate), 0.2*income), with
    sensitivity 0.5 for a formal household and 0.1 otherwise; hence at
    least 0.2*income.  The consumption is added to aggregate demand and
    income - consumption to the savings.  A formal household with income
    100 and savings 100 under an interest rate of 0.05 consumes 78 and
    ends with savings 122. *)
Theorem C4_household_step :
  (forall (h : Household) (m : InflationModel),
      household_params h ->
      let sensitivity := if h_formal h then 0.5 else 0.1 in
      let c := Household_consumption h m in
      let h' := fst (Household_step h m) in
      let m' := snd (Household_step h m) in
      c == Qmax (income h * 0.8
                 * (1 - sensitivity * interest_rate (central_bank m)))
                (0.2 * income h)
      /\ 0.2 * income h <= c
      /\ aggregate_demand m' == aggregate_demand m + c
      /\ savings h' == savings h + (income h - c))
  /\ (forall (m : InflationModel) (uid : nat),
        interest_rate (central_bank m) == 0.05 ->
        let h := Household_init uid m true 100 100 in
        Household_consumption h m == 78
        /\ savings (fst (Household_step h m)) == 122).
Proof.
  split.
  - intros h m [Hrate Hsens]. cbn zeta.
    split; [|split; [|split]]; [| apply py_max_ge_r | reflexivity..].
    unfold Household_consumption. rewrite py_max_Qmax.
    apply Q.max_compat; [|reflexivity].
    rewrite Hrate, Hsens. ring.
  - intros m uid Hr. cbn zeta.
    assert (Hc : Household_consumption (Household_init uid m true 100 100) m
                 == 78).
    { unfold Household_consumption, Household_init. cbn [income
        consumption_rate interest_rate_sensitivity].
      match goal with
      | |- py_max ?a ?b == _ =>
          destruct (py_max_cases a b) as [[H ->]|[H ->]]; lra
      end. }
    split; [exact Hc|].
    unfold Household_step. cbn [fst savings]. rewrite Hc.
    unfold Household_init. cbn [savings income]. lra.
Qed.

(** The scenario of C4, run on a model whose bank holds the initial rate. *)
Lemma C4_household_step_witness :
  let h := Household_init 1 small_model true 100 100 in
  household_params h
  /\ 0.2 * income h <= Household_consumption h small_model
  /\ Household_consumption h small_model == 78
  /\ savings (fst (Household_step h small_model)) == 122.
Proof.
  cbn zeta. split; [apply Household_init_params|].
  split.
  - apply (proj1 C4_household_step
             (Household_init 1 small_model true 100 100) small_model).
    apply Household_init_params.
  - apply (proj2 C4_household_step small_model 1%nat). reflexivity.
Defined.

(** ** Firms *)

(** C6.  After the step of a firm of positive capacity, its production
    lies between half its capacity and its capacity; the capacity itself
    is unchanged. *)
Theorem C6_firm_utilization (f f' : Firm) (m m' : InflationModel) :
  0 < production_capacity f ->
  Firm_step f m = Some (f', m') ->
  0.5 * production_capacity f <= current_production f'
  /\ current_production f' <= 1.0 * production_capacity f
  /\ production_capacity f' = production_capacity f.
Proof.
  intros Hcap Hstep. unfold Firm_step in Hstep.
  destruct (Firm_demand_pressure m) as [dp|]; [|discriminate].
  cbn [mbind option_bind] in Hstep.
  destruct (py_div (current_production f) (production_capacity f)) as [u|];
    [|discriminate].
  cbn [mbind option_bind] in Hstep. injection Hstep as <- _.
  cbn [current_production production_capacity].
  pose proof (clamp_bounds 0.5 1.0 (u + 0.1 * dp)) as Hb.
  assert (H01 : 0.5 <= 1.0) by lra. specialize (Hb H01).
  repeat split; nra.
Qed.

Lemma C6_firm_utilization_witness :
  let f := Firm_init 2 true 130 in
  exists f' m',
    Firm_step f small_model = Some (f', m')
    /\ 0.5 * production_capacity f <= current_production f'
    /\ current_production f' <= 1.0 * production_capacity f
    /\ production_capacity f' = production_capacity f.
Proof.
  cbn zeta. eexists _, _. split; [vm_compute; reflexivity|].
  eapply (C6_firm_utilization (Firm_init 2 true 130) _ small_model _);
    vm_compute; reflexivity.
Defined.

(** ** Frame properties of the construction *)

Lemma construction_frame_refl m : construction_frame m m.
Proof.
  repeat (split; [reflexivity|]). exists []. by rewrite app_nil_r.
Qed.

Lemma construction_frame_trans m1 m2 m3 :
  construction_frame m1 m2 -> construction_frame m2 m3 ->
  construction_frame m1 m3.
Proof.
  intros (A1 & A2 & A3 & A4 & A5 & A6 & A7 & A8 & A9 & l1 & A10)
         (B1 & B2 & B3 & B4 & B5 & B6 & B7 & B8 & B9 & l2 & B10).
  repeat (split; [congruence|]).
  exists (l1 ++ l2). rewrite B10, A10. by rewrite app_assoc.
Qed.

Lemma create_households_frame cfg k : forall i rng m,
  construction_frame m (fst (create_households cfg k i rng m)).
Proof.
  induction k as [|k IH]; intros i rng m; cbn [create_households].
  - apply construction_frame_refl.
  - cbn [np_next]. eapply construction_frame_trans; [|apply IH].
    repeat (split; [reflexivity|]). eexists. reflexivity.
Qed.

Lemma create_firms_frame cfg k : forall i rng m,
  construction_frame m (fst (create_firms cfg k i rng m)).
Proof.
  induction k as [|k IH]; intros i rng m; cbn [create_firms].
  - apply construction_frame_refl.
  - cbn [np_next]. eapply construction_frame_trans; [|apply IH].
    repeat (split; [reflexivity|]). eexists. reflexivity.
Qed.

Lemma InflationModel_init_populated cfg rng :
  fst (InflationModel_init cfg rng) =
  collect (if Qltb 0 (cfg_inflation_shock_size cfg)
           then set_current_inflation
                  (current_inflation (populated cfg rng)
                   + cfg_inflation_shock_size cfg) (populated cfg rng)
           else populated cfg rng).
Proof.
  unfold InflationModel_init, populated.
  destruct (create_households _ _ _ _ _) as [m1 r1]. cbn [fst snd].
  destruct (create_firms _ _ _ _ _) as [m2 r2]. reflexivity.
Qed.

Lemma populated_frame cfg rng :
  current_inflation (populated cfg rng) = cfg_initial_inflation cfg
  /\ price_index (populated cfg rng) = 1.0
  /\ aggregate_demand (populated cfg rng) = 0
  /\ total_production (populated cfg rng) = 0
  /\ central_bank (populated cfg rng)
     = CentralBank_init 0 (cfg_inflation_target cfg)
  /\ model_vars (populated cfg rng) = []
  /\ exists l, schedule (populated cfg rng) = AgCentralBank :: l.
Proof.
  unfold populated.
  match goal with
  | |- context [create_firms ?c ?k ?i (snd (create_households ?c ?k2 ?i2 ?r ?m0))
                             (fst (create_households ?c ?k2 ?i2 ?r ?m0))] =>
      pose proof (create_households_frame c k2 i2 r m0) as H1;
      pose proof (create_firms_frame c k i
                    (snd (create_households c k2 i2 r m0))
                    (fst (create_households c k2 i2 r m0))) as H2;
      pose proof (construction_frame_trans _ _ _ H1 H2) as H
  end.
  clear H1 H2.
  destruct H as (A1 & A2 & A3 & A4 & A5 & A6 & A7 & A8 & A9 & l & A10).
  repeat (split; [assumption|]). exists l. exact A10.
Qed.

(** C9 (as the code has it).  The first snapshot records
    initial_inflation + inflation_shock_size when the shock is positive,
    and initial_inflation unchanged when it is zero or negative; it is the
    only snapshot taken at construction. *)
Theorem C9_initial_snapshot (cfg : Config) (rng : NpRandom) :
  exists v,
    model_vars (fst (InflationModel_init cfg rng)) = [v]
    /\ Inflation v =
       if Qltb 0 (cfg_inflation_shock_size cfg)
       then cfg_initial_inflation cfg + cfg_inflation_shock_size cfg
       else cfg_initial_inflation cfg.
Proof.
  rewrite InflationModel_init_populated.
  destruct (populated_frame cfg rng) as (Hinf & _ & _ & _ & _ & Hmv & _).
  unfold collect.
  destruct (Qltb 0 (cfg_inflation_shock_size cfg));
    cbn [set_collected set_current_inflation model_vars];
    rewrite Hmv; (eexists; split; [reflexivity|]);
    cbn [model_reporters Inflation set_current_inflation current_inflation];
    rewrite ?Hinf; reflexivity.
Qed.

(** C9 fails for a negative shock: with initial inflation 0.08 and a shock
    of -0.02 the first snapshot records 0.08, not 0.06. *)
Lemma C9_negative_shock_ignored :
  exists v,
    model_vars (fst (InflationModel_init negative_shock_config (draws_of [])))
      !! 0%nat = Some v
    /\ Inflation v == 0.08
    /\ ~ Inflation v
         == cfg_initial_inflation negative_shock_config
            + cfg_inflation_shock_size negative_shock_config.
Proof.
  eexists. split; [vm_compute; reflexivity|].
  vm_compute. split; [reflexivity | discriminate].
Qed.

(** ** Frame properties of a tick *)

Lemma activation_frame_refl m : activation_frame m m.
Proof. repeat split. Qed.

Lemma activation_frame_trans m1 m2 m3 :
  activation_frame m1 m2 -> activation_frame m2 m3 -> activation_frame m1 m3.
Proof.
  intros (A1 & A2 & A3 & A4 & A5 & A6 & A7 & A8)
         (B1 & B2 & B3 & B4 & B5 & B6 & B7 & B8).
  repeat split; congruence.
Qed.

Lemma kind_insert (l : list Agent) i a b :
  l !! i = Some a -> kind b = kind a -> kind <$> <[i:=b]> l = kind <$> l.
Proof.
  intros Hl Hk. rewrite list_fmap_insert, Hk.
  apply list_insert_id. by rewrite list_lookup_fmap, Hl.
Qed.

Lemma Firm_step_frame f m f' m' :
  Firm_step f m = Some (f', m') ->
  activation_frame m m' /\ schedule m' = schedule m
  /\ central_bank m' = central_bank m
  /\ aggregate_demand m' = aggregate_demand m.
Proof.
  unfold Firm_step. intros H. bind_inv H. bind_inv H.
  injection H as <- <-. repeat split.
Qed.

Lemma activate_frame i m m' :
  activate i m = Some m' -> activation_frame m m'.
Proof.
  unfold activate. destruct (schedule m !! i) as [[|h|f]|] eqn:Hi.
  - unfold CentralBank_step. intros H. bind_inv H.
    injection H as <-. repeat split.
  - cbn. intros [= <-]. repeat split; cbn.
    by apply kind_insert with (a := AgHousehold h).
  - intros H. bind_inv H. destruct p as [f' m1]. injection H as <-.
    apply Firm_step_frame in E as (F & Hs & _).
    eapply activation_frame_trans; [exact F|].
    repeat split; cbn. rewrite Hs.
    by apply kind_insert with (a := AgFirm f).
  - intros [= <-]. apply activation_frame_refl.
Qed.

Lemma run_agents_frame order : forall m m',
  run_agents order m = Some m' -> activation_frame m m'.
Proof.
  induction order as [|i rest IH]; intros m m' H; cbn in H.
  - injection H as <-. apply activation_frame_refl.
  - bind_inv H. eapply activation_frame_trans.
    + eapply activate_frame; eassumption.
    + by apply IH.
Qed.

(** The decomposition of a completed tick into its phases. *)
Lemma step_phases picks m m' :
  step picks m = Some m' ->
  exists m1 m2,
    run_agents (activation_order picks (reset_aggregates m))
               (reset_aggregates m) = Some m1
    /\ finalize m1 = Some m2
    /\ m' = collect m2.
Proof.
  unfold step, schedule_step. intros H. bind_inv H. bind_inv H.
  injection H as <-. eauto.
Qed.

(** ** The central bank *)

Lemma CentralBank_step_bounds m m' :
  CentralBank_step m = Some m' ->
  rate_in_bounds (interest_rate (central_bank m')).
Proof.
  unfold CentralBank_step. intros H. bind_inv H. injection H as <-.
  cbn [set_central_bank central_bank interest_rate].
  apply clamp_bounds. lra.
Qed.

Lemma activate_rate i m m' :
  activate i m = Some m' ->
  rate_in_bounds (interest_rate (central_bank m)) ->
  rate_in_bounds (interest_rate (central_bank m')).
Proof.
  unfold activate. destruct (schedule m !! i) as [[|h|f]|] eqn:Hi.
  - intros H _. by eapply CentralBank_step_bounds.
  - cbn. by intros [= <-].
  - intros H. bind_inv H. destruct p as [f' m1]. injection H as <-.
    apply Firm_step_frame in E as (_ & _ & Hcb & _). cbn. by rewrite Hcb.
  - by intros [= <-].
Qed.

Lemma run_agents_rate order : forall m m',
  run_agents order m = Some m' ->
  rate_in_bounds (interest_rate (central_bank m)) ->
  rate_in_bounds (interest_rate (central_bank m')).
Proof.
  induction order as [|i rest IH]; intros m m' H Hr; cbn in H.
  - by injection H as <-.
  - bind_inv H. eapply IH; [eassumption|]. by eapply activate_rate.
Qed.

Lemma finalize_frame m m' :
  finalize m = Some m' ->
  central_bank m' = central_bank m /\ schedule m' = schedule m
  /\ model_vars m' = model_vars m
  /\ total_production m' = total_production m
  /\ price_index_numerator m' = price_index_numerator m
  /\ aggregate_demand m' = aggregate_demand m.
Proof.
  unfold finalize. intros H. bind_inv H. injection H as <-.
  destruct (Qltb 0 _); repeat split.
Qed.

(** What the finalize phase computes. *)
Lemma finalize_spec m m' :
  finalize m = Some m' ->
  previous_price_index m' = price_index m
  /\ total_production m' = total_production m
  /\ price_index_numerator m' = price_index_numerator m
  /\ price_index m' =
     (if Qltb 0 (total_production m)
      then price_index_numerator m / total_production m
      else price_index m)
  /\ current_inflation m' = price_index m' / price_index m - 1.
Proof.
  unfold finalize. intros H.
  change (total_production (set_previous_price_index (price_index m) m))
    with (total_production m) in H.
  destruct (Qltb 0 (total_production m)); bind_inv H; injection H as <-;
    apply py_div_Some in E as [_ ->]; repeat split.
Qed.

Lemma finalize_None m : finalize m = None <-> price_index m == 0.
Proof.
  unfold finalize.
  change (total_production (set_previous_price_index (price_index m) m))
    with (total_production m).
  destruct (Qltb 0 (total_production m));
    cbn [set_previous_price_index set_price_index previous_price_index
         price_index total_production price_index_numerator].
  - destruct (py_div _ (price_index m)) eqn:E.
    + apply py_div_Some in E as [Hnz _]. split; [discriminate | contradiction].
    + apply py_div_None in E. split; [by intros _ | reflexivity].
  - destruct (py_div _ (price_index m)) eqn:E.
    + apply py_div_Some in E as [Hnz _]. split; [discriminate | contradiction].
    + apply py_div_None in E. split; [by intros _ | reflexivity].
Qed.

(** C5.  In every state of a run (the constructed model and the state at
    the end of every completed tick, whatever the activation orders), the
    central bank's interest rate lies in [0.01, 0.20]; so does every
    value of the collected Interest_Rate series. *)
Theorem C5_interest_rate_bounds (cfg : Config) (m : InflationModel) :
  reachable cfg m ->
  rate_in_bounds (interest_rate (central_bank m))
  /\ Forall (fun v => rate_in_bounds (Interest_Rate v)) (model_vars m).
Proof.
  induction 1 as [rng | m picks m' Hreach [IHr IHs] Hstep].
  - rewrite InflationModel_init_populated.
    destruct (populated_frame cfg rng) as (_ & _ & _ & _ & Hcb & Hmv & _).
    assert (H05 : rate_in_bounds 0.05) by (unfold rate_in_bounds; lra).
    destruct (Qltb 0 (cfg_inflation_shock_size cfg));
      cbn [collect set_collected set_current_inflation central_bank
           model_vars]; rewrite Hcb, Hmv;
      (split; [exact H05 | repeat constructor; cbn; rewrite ?Hcb; apply H05]).
  - apply step_phases in Hstep as (m1 & m2 & Hrun & Hfin & ->).
    apply run_agents_rate in Hrun as Hr1; [|exact IHr].
    apply run_agents_frame in Hrun as (_ & _ & _ & _ & Hmv1 & _).
    apply finalize_frame in Hfin as (Hcb2 & _ & Hmv2 & _).
    cbn [collect set_collected central_bank model_vars].
    rewrite Hcb2. split; [exact Hr1|].
    rewrite Hmv2, Hmv1. cbn [reset_aggregates set_price_index_numerator
      set_total_production set_aggregate_demand model_vars].
    apply Forall_app. split; [exact IHs|].
    constructor; [|constructor].
    cbn [model_reporters Interest_Rate]. rewrite Hcb2. exact Hr1.
Qed.

Lemma C5_interest_rate_bounds_witness :
  exists m,
    step household_firm_bank small_model = Some m
    /\ reachable small_config m
    /\ rate_in_bounds (interest_rate (central_bank m)).
Proof.
  eexists. split; [vm_compute; reflexivity|].
  match goal with
  | |- reachable ?c ?m /\ _ =>
      assert (R : reachable c m);
      [ apply (reachable_step c small_model household_firm_bank);
        [ apply (reachable_init small_config
                   (draws_of [0.5; 50; 100; 0.5; 100]))
        | vm_compute; reflexivity ]
      | split; [exact R | exact (proj1 (C5_interest_rate_bounds c m R))] ]
  end.
Defined.

(** ** Division by zero in the central bank's step *)

(** A tick in which the central bank is drawn first: its output gap
    divides by the total production, which the reset has just set to 0. *)
Lemma bank_first_faults (m : InflationModel) (picks : list nat) l :
  schedule m = AgCentralBank :: l -> step (0%nat :: picks) m = None.
Proof.
  intros Hs.
  assert (Hs' : schedule (reset_aggregates m) = AgCentralBank :: l)
    by exact Hs.
  unfold step, schedule_step, activation_order, shuffle.
  rewrite Hs'. cbn [length seq draw_from hd tl].
  rewrite Nat.Div0.mod_0_l. cbn [lookup list_lookup run_agents].
  unfold activate at 1. rewrite Hs'. reflexivity.
Qed.

(** C3 (the code against it).  For every configuration and every draw at
    construction, the first tick raises ZeroDivisionError whenever the
    scheduler activates the central bank first: [CentralBank.step] divides
    by total_production, which is 0 until a firm has stepped, and nothing
    guards that division. *)
Theorem C3_bank_first_raises (cfg : Config) (rng : NpRandom)
  (picks : list nat) :
  step (0%nat :: picks) (fst (InflationModel_init cfg rng)) = None.
Proof.
  destruct (populated_frame cfg rng) as (_ & _ & _ & _ & _ & _ & l & Hl).
  apply bank_first_faults with (l := l).
  rewrite InflationModel_init_populated.
  destruct (Qltb 0 (cfg_inflation_shock_size cfg)); exact Hl.
Qed.

(** ** The price index *)

(** C7 (as the code has it).  In a tick that completes, the previous price
    index is the price index the tick started with; when the total
    production is zero or negative the price index is retained and the
    inflation becomes 0; when it is positive the price index becomes
    price_index_numerator / total_production; in both cases the inflation
    is price_index / previous_price_index - 1.  The finalize phase itself
    raises exactly when the price index it starts from is zero. *)
Theorem C7_finalize (picks : list nat) (m m' : InflationModel) :
  step picks m = Some m' ->
  previous_price_index m' = price_index m
  /\ (total_production m' <= 0 ->
      price_index m' = price_index m /\ current_inflation m' == 0)
  /\ (0 < total_production m' ->
      price_index m' = price_index_numerator m' / total_production m')
  /\ current_inflation m' == price_index m' / previous_price_index m' - 1
  /\ (forall m1, finalize m1 = None <-> price_index m1 == 0).
Proof.
  intros Hstep. apply step_phases in Hstep as (m1 & m2 & Hrun & Hfin & ->).
  apply run_agents_frame in Hrun as (_ & Hpi & _).
  change (price_index (reset_aggregates m)) with (price_index m) in Hpi.
  assert (Hnz : ~ price_index m1 == 0).
  { intros Hz. apply finalize_None in Hz. congruence. }
  apply finalize_spec in Hfin as (Hprev & Htp & Hnum & Hpi2 & Hinf).
  cbn [collect set_collected previous_price_index price_index
       total_production current_inflation price_index_numerator].
  rewrite Hinf, Hprev, Htp, Hnum, Hpi2, <- Hpi.
  split; [reflexivity|].
  destruct (Qltb 0 (total_production m1)) eqn:Ht.
  - apply Qltb_true in Ht.
    split; [intros Hle; lra|]. split; [reflexivity|].
    split; [reflexivity|]. apply finalize_None.
  - apply Qltb_false in Ht.
    split; [intros _; split; [reflexivity | field; exact Hnz]|].
    split; [intros Hlt; lra|]. split; [reflexivity|]. apply finalize_None.
Qed.

Lemma C7_finalize_witness :
  exists m',
    step household_firm_bank small_model = Some m'
    /\ previous_price_index m' = price_index small_model
    /\ current_inflation m'
       == price_index m' / previous_price_index m' - 1.
Proof.
  eexists. split; [vm_compute; reflexivity|].
  match goal with
  | |- previous_price_index ?m' = _ /\ _ =>
      assert (H : step household_firm_bank small_model = Some m')
        by (vm_compute; reflexivity);
      pose proof (C7_finalize household_firm_bank small_model m' H)
        as (H1 & _ & _ & H4 & _);
      split; [exact H1 | exact H4]
  end.
Defined.

(** C7 fails when the total production is negative: the model with one
    firm of negative capacity completes a tick with a total production of
    -9.1, which is not zero, and keeps its price index of 1 instead of
    taking price_index_numerator / total_production. *)
Lemma C7_negative_production_retains :
  exists m',
    step firm_bank negative_capacity_model = Some m'
    /\ total_production m' == -9.1
    /\ ~ total_production m' == 0
    /\ price_index m' == 1
    /\ ~ price_index m' == price_index_numerator m' / total_production m'.
Proof.
  eexists. split; [vm_compute; reflexivity|].
  vm_compute. repeat split; discriminate.
Qed.

(** ** Aggregate demand within a tick *)

Lemma run_agents_app pre post : forall m,
  run_agents (pre ++ post) m = run_agents pre m ≫= run_agents post.
Proof.
  induction pre as [|i pre IH]; intros m; cbn; [reflexivity|].
  destruct (activate i m) as [m1|]; cbn; [apply IH | reflexivity].
Qed.

Lemma foldl_Qplus (l : list Q) : forall acc,
  foldl Qplus acc l == acc + py_sum l.
Proof.
  unfold py_sum. induction l as [|x l IH]; intros acc; cbn.
  - ring.
  - rewrite (IH (acc + x)), (IH (0 + x)). ring.
Qed.

Lemma py_sum_cons x l : py_sum (x :: l) == x + py_sum l.
Proof. unfold py_sum at 1. cbn. rewrite foldl_Qplus. ring. Qed.

(** Only a household's step changes the aggregate demand, by the
    household's consumption. *)
Lemma activate_demand i m m' :
  activate i m = Some m' ->
  aggregate_demand m' ==
  aggregate_demand m
  + match schedule m !! i with
    | Some (AgHousehold h) => Household_consumption h m
    | _ => 0
    end.
Proof.
  unfold activate. destruct (schedule m !! i) as [[|h|f]|] eqn:Hi.
  - unfold CentralBank_step. intros H. bind_inv H. injection H as <-.
    cbn. ring.
  - cbn. intros [= <-]. cbn. reflexivity.
  - intros H. bind_inv H. destruct p as [f' m1]. injection H as <-.
    apply Firm_step_frame in E as (_ & _ & _ & Had). cbn. rewrite Had. ring.
  - intros [= <-]. ring.
Qed.

Lemma run_agents_demand order : forall m m',
  run_agents order m = Some m' ->
  aggregate_demand m' ==
  aggregate_demand m + py_sum (consumption_log order m).
Proof.
  induction order as [|i rest IH]; intros m m' H; cbn in H.
  - injection H as <-. cbn. unfold py_sum. cbn. ring.
  - bind_inv H. cbn [consumption_log]. rewrite E.
    rewrite (IH _ _ H), (activate_demand _ _ _ E).
    destruct (schedule m !! i) as [[|h|f]|]; rewrite ?py_sum_cons; ring.
Qed.

(** C2 (as the code has it).  Let a firm be activated after the agents of
    [pre] in a tick.  Its step runs in the state [mpre] that the reset and
    the steps of [pre] have produced, so the demand pressure it computes is
    (the consumption of the households already activated in this tick)
    / total_production_capacity - 1.  The previous tick's final aggregate
    demand plays no part: the reset has erased it. *)
Theorem C2_firm_reads_current_tick (m mpre : InflationModel)
  (pre post : list nat) (i : nat) (f : Firm) :
  run_agents pre (reset_aggregates m) = Some mpre ->
  schedule mpre !! i = Some (AgFirm f) ->
  run_agents (pre ++ i :: post) (reset_aggregates m)
  = ('(f', m') ← Firm_step f mpre;
     run_agents post (set_schedule (<[i := AgFirm f']> (schedule m')) m'))
  /\ aggregate_demand mpre
     == py_sum (consumption_log pre (reset_aggregates m))
  /\ (forall dp, Firm_demand_pressure mpre = Some dp ->
        dp == py_sum (consumption_log pre (reset_aggregates m))
              / total_production_capacity m - 1)
  /\ (~ total_production_capacity m == 0 ->
      exists dp, Firm_demand_pressure mpre = Some dp)
  /\ (forall d,
        reset_aggregates (set_aggregate_demand d m) = reset_aggregates m).
Proof.
  intros Hrun Hi.
  pose proof (run_agents_demand _ _ _ Hrun) as Had.
  change (aggregate_demand (reset_aggregates m)) with 0 in Had.
  apply run_agents_frame in Hrun as Hfr.
  destruct Hfr as (_ & _ & _ & Hcap & _).
  change (total_production_capacity (reset_aggregates m))
    with (total_production_capacity m) in Hcap.
  split; [|split; [|split; [|split]]].
  - rewrite run_agents_app, Hrun. cbn [mbind option_bind run_agents].
    unfold activate. rewrite Hi.
    destruct (Firm_step f mpre) as [[f' m']|]; reflexivity.
  - rewrite Had. ring.
  - intros dp Hdp. unfold Firm_demand_pressure in Hdp. bind_inv Hdp.
    injection Hdp as <-. apply py_div_Some in E as [_ ->].
    rewrite Hcap, Had. apply Qminus_comp; [|reflexivity].
    apply Qdiv_comp; [ring | reflexivity].
  - intros Hnz. unfold Firm_demand_pressure.
    rewrite py_div_nonzero by (by rewrite Hcap). eexists. reflexivity.
  - intros d. reflexivity.
Qed.

(** In the second tick of the small model the household steps first and
    the firm second: the firm reads the household's consumption of that
    tick. *)
Lemma C2_firm_reads_current_tick_witness :
  exists m mpre f dp,
    step household_firm_bank small_model = Some m
    /\ run_agents [1%nat] (reset_aggregates m) = Some mpre
    /\ schedule mpre !! 2%nat = Some (AgFirm f)
    /\ Firm_demand_pressure mpre = Some dp
    /\ dp == py_sum (consumption_log [1%nat] (reset_aggregates m))
             / total_production_capacity m - 1.
Proof.
  evar (m : InflationModel). evar (mpre : InflationModel).
  evar (f : Firm). evar (dp : Q).
  assert (H1 : step household_firm_bank small_model = Some m)
    by (subst m; vm_compute; reflexivity).
  assert (H2 : run_agents [1%nat] (reset_aggregates m) = Some mpre)
    by (subst mpre; vm_compute; reflexivity).
  assert (H3 : schedule mpre !! 2%nat = Some (AgFirm f))
    by (subst f; vm_compute; reflexivity).
  assert (H4 : Firm_demand_pressure mpre = Some dp)
    by (subst dp; vm_compute; reflexivity).
  exists m, mpre, f, dp. repeat (split; [assumption|]).
  exact (proj1 (proj2 (proj2
           (C2_firm_reads_current_tick m mpre [1%nat] [0%nat] 2%nat f H2 H3)))
           dp H4).
Defined.

(** C2 fails in the second tick of the small model.  The first tick ends
    with an aggregate demand of 46.8 and the capacity is 130.  A firm
    activated first in the second tick computes a demand pressure of -1,
    not 46.8/130 - 1; activated after the household it computes
    47.76/130 - 1: the value depends on the households already activated. *)
Lemma C2_no_one_tick_lag :
  exists m f mpre dp_first dp_after,
    step household_firm_bank small_model = Some m
    /\ aggregate_demand m == 46.8
    /\ total_production_capacity m == 130
    /\ schedule m !! 2%nat = Some (AgFirm f)
    /\ activation_order firm_bank_household (reset_aggregates m)
       = [2; 0; 1]%nat
    /\ Firm_demand_pressure (reset_aggregates m) = Some dp_first
    /\ dp_first == -1
    /\ ~ dp_first == aggregate_demand m / total_production_capacity m - 1
    /\ activation_order household_firm_bank (reset_aggregates m)
       = [1; 2; 0]%nat
    /\ run_agents [1%nat] (reset_aggregates m) = Some mpre
    /\ Firm_demand_pressure mpre = Some dp_after
    /\ dp_after == 47.76 / 130 - 1
    /\ ~ dp_after == aggregate_demand m / total_production_capacity m - 1.
Proof.
  eexists _, _, _, _, _.
  split; [vm_compute; reflexivity|].
  split; [vm_compute; reflexivity|].
  split; [vm_compute; reflexivity|].
  split; [vm_compute; reflexivity|].
  split; [vm_compute; reflexivity|].
  split; [vm_compute; reflexivity|].
  split; [vm_compute; reflexivity|].
  split; [vm_compute; discriminate|].
  split; [vm_compute; reflexivity|].
  split; [vm_compute; reflexivity|].
  split; [vm_compute; reflexivity|].
  split; [vm_compute; reflexivity|].
  vm_compute; discriminate.
Qed.

(** ** What determines a run *)

Lemma same_draws_next n r1 r2 :
  same_draws (S n) r1 r2 ->
  fst (np_next r1) = fst (np_next r2)
  /\ same_draws n (snd (np_next r1)) (snd (np_next r2)).
Proof.
  intros H. split.
  - specialize (H 0%nat ltac:(lia)). by rewrite !Nat.add_0_r in H.
  - intros j Hj. cbn. specialize (H (S j) ltac:(lia)).
    by rewrite <- !Nat.add_succ_comm in H.
Qed.

Lemma create_households_same cfg n k : forall i r1 r2 m,
  same_draws (3 * k + n) r1 r2 ->
  fst (create_households cfg k i r1 m) = fst (create_households cfg k i r2 m)
  /\ same_draws n (snd (create_households cfg k i r1 m))
                  (snd (create_households cfg k i r2 m)).
Proof.
  induction k as [|k IH]; intros i r1 r2 m H.
  - split; [reflexivity|]. exact H.
  - replace (3 * S k + n)%nat with (S (S (S (3 * k + n)))) in H by lia.
    apply same_draws_next in H as [H1 H].
    apply same_draws_next in H as [H2 H].
    apply same_draws_next in H as [H3 H].
    cbn [create_households].
    destruct (np_next r1) as [u1 r1a], (np_next r2) as [u2 r2a].
    cbn [fst snd] in *.
    destruct (np_next r1a) as [b1 r1b], (np_next r2a) as [b2 r2b].
    cbn [fst snd] in *.
    destruct (np_next r1b) as [s1 r1c], (np_next r2b) as [s2 r2c].
    cbn [fst snd] in *. subst u2 b2 s2. by apply IH.
Qed.

Lemma create_firms_same cfg n k : forall i r1 r2 m,
  same_draws (2 * k + n) r1 r2 ->
  fst (create_firms cfg k i r1 m) = fst (create_firms cfg k i r2 m)
  /\ same_draws n (snd (create_firms cfg k i r1 m))
                  (snd (create_firms cfg k i r2 m)).
Proof.
  induction k as [|k IH]; intros i r1 r2 m H.
  - split; [reflexivity|]. exact H.
  - replace (2 * S k + n)%nat with (S (S (2 * k + n))) in H by lia.
    apply same_draws_next in H as [H1 H].
    apply same_draws_next in H as [H2 H].
    cbn [create_firms].
    destruct (np_next r1) as [u1 r1a], (np_next r2) as [u2 r2a].
    cbn [fst snd] in *.
    destruct (np_next r1a) as [b1 r1b], (np_next r2a) as [b2 r2b].
    cbn [fst snd] in *. subst u2 b2. by apply IH.
Qed.

(** C1 (as the code has it).  The macro model takes no seed.  Two runs of
    it with the same configuration coincide, in every collected metric and
    every tick, when the draws their constructions take from numpy's
    global generator are the same (three per household, two per firm) and
    the scheduler draws the same activation orders. *)
Theorem C1_determined_by_draws (cfg : Config) (r1 r2 : NpRandom)
  (ticks : list (list nat)) :
  same_draws (draws_consumed cfg) r1 r2 ->
  let run1 := run ticks (fst (InflationModel_init cfg r1)) in
  let run2 := run ticks (fst (InflationModel_init cfg r2)) in
  run1 = run2
  /\ model_vars <$> run1 = model_vars <$> run2
  /\ agent_records <$> run1 = agent_records <$> run2.
Proof.
  intros H. cbn zeta.
  assert (Hinit : fst (InflationModel_init cfg r1)
                  = fst (InflationModel_init cfg r2)).
  { rewrite !InflationModel_init_populated.
    assert (Hp : populated cfg r1 = populated cfg r2).
    { unfold populated, draws_consumed in *.
      match goal with
      | |- context [create_households cfg ?k ?i r1 ?m0] =>
          destruct (create_households_same cfg (2 * cfg_num_firms cfg)
                      k i r1 r2 m0 H) as [Hh Hr]
      end.
      rewrite Hh.
      replace (2 * cfg_num_firms cfg)%nat
        with (2 * cfg_num_firms cfg + 0)%nat in Hr by lia.
      match type of Hr with
      | same_draws _ ?ra ?rb =>
          match goal with
          | |- context [create_firms cfg ?k ?i ra ?m1] =>
              destruct (create_firms_same cfg 0 k i ra rb m1 Hr) as [Hf _]
          end
      end.
      exact Hf. }
    by rewrite Hp. }
  rewrite Hinit. repeat split.
Qed.

(** Two generators that agree on the five draws the small configuration
    consumes and differ afterwards. *)
Lemma C1_determined_by_draws_witness :
  let r1 := draws_of [0.5; 50; 100; 0.5; 100] in
  let r2 := draws_of [0.5; 50; 100; 0.5; 100; 7] in
  np_draws r1 5%nat <> np_draws r2 5%nat
  /\ same_draws (draws_consumed small_config) r1 r2
  /\ model_vars <$> run [household_firm_bank; firm_bank_household]
                        (fst (InflationModel_init small_config r1))
     = model_vars <$> run [household_firm_bank; firm_bank_household]
                          (fst (InflationModel_init small_config r2)).
Proof.
  cbn zeta.
  assert (H : same_draws (draws_consumed small_config)
                (draws_of [0.5; 50; 100; 0.5; 100])
                (draws_of [0.5; 50; 100; 0.5; 100; 7])).
  { intros j Hj. vm_compute in Hj.
    do 5 (destruct j as [|j]; [reflexivity|]). lia. }
  split; [vm_compute; discriminate|]. split; [exact H|].
  exact (proj1 (proj2 (C1_determined_by_draws small_config _ _
           [household_firm_bank; firm_bank_household] H))).
Defined.

(** C1 fails on the macro model: two models built from the same
    configuration, whose constructions drew different incomes, record
    different aggregate demands at tick 1. *)
Lemma C1_same_configuration_differs :
  exists ma mb va vb,
    step household_firm_bank small_model = Some ma
    /\ step household_firm_bank small_model' = Some mb
    /\ model_vars ma !! 1%nat = Some va
    /\ model_vars mb !! 1%nat = Some vb
    /\ Aggregate_Demand va == 46.8
    /\ Aggregate_Demand vb == 37.44
    /\ ~ Aggregate_Demand va == Aggregate_Demand vb.
Proof.
  eexists _, _, _, _.
  split; [vm_compute; reflexivity|].
  split; [vm_compute; reflexivity|].
  split; [vm_compute; reflexivity|].
  split; [vm_compute; reflexivity|].
  split; [vm_compute; reflexivity|].
  split; [vm_compute; reflexivity|].
  vm_compute; discriminate.
Qed.

End MacroTheory.

(** ** Shuffles and samples *)

Section DrawFrom.
Context {A : Type}.
Implicit Types (pool : list A) (picks : list nat).

Lemma draw_from_length k : forall picks pool,
  (k <= length pool)%nat -> length (draw_from picks pool k) = k.
Proof.
  induction k as [|k IH]; intros picks pool Hk; cbn [draw_from];
    [reflexivity|].
  assert (Hj : (hd 0%nat picks mod length pool < length pool)%nat)
    by (apply Nat.mod_upper_bound; lia).
  destruct (lookup_lt_is_Some_2 _ _ Hj) as [x Hx]. rewrite Hx. cbn.
  rewrite IH; [reflexivity|].
  rewrite length_delete by eauto. lia.
Qed.

Lemma draw_from_elem_of k : forall picks pool x,
  x ∈ draw_from picks pool k -> x ∈ pool.
Proof.
  induction k as [|k IH]; intros picks pool x; cbn [draw_from].
  - by intros ?%elem_of_nil.
  - destruct (pool !! _) as [y|] eqn:Hy; [|by intros ?%elem_of_nil].
    intros [->|Hin]%elem_of_cons.
    + by eapply list_elem_of_lookup_2.
    + eapply list_elem_of_delete_inv, IH, Hin.
Qed.

Lemma shuffle_length picks (l : list A) :
  length (shuffle picks l) = length l.
Proof. unfold shuffle. by apply draw_from_length. Qed.

End DrawFrom.

Module SchellingTheory.
Import Schelling.

(** ** Satisfaction *)

Lemma share_alike_nonneg a neighbors : 0 <= share_alike a neighbors.
Proof.
  unfold share_alike.
  set (s := length (filter _ neighbors)).
  destruct neighbors as [|n ns].
  - subst s. vm_compute. discriminate.
  - apply Qle_shift_div_l.
    + change 0 with (inject_Z 0). rewrite <- Zlt_Qlt. cbn [length]. lia.
    + rewrite Qmult_0_l. change 0 with (inject_Z 0). rewrite <- Zle_Qle. lia.
Qed.

(** With a threshold of 0 an agent is satisfied exactly when it has a
    neighbour. *)
Lemma is_satisfied_zero a neighbors :
  threshold a == 0 ->
  is_satisfied a neighbors = match neighbors with [] => false | _ => true end.
Proof.
  intros Ht. destruct neighbors as [|n ns]; [reflexivity|].
  unfold is_satisfied. apply Qle_bool_iff. rewrite Ht.
  apply share_alike_nonneg.
Qed.

Lemma move_satisfied picks i m a :
  agents m !! i = Some a ->
  is_satisfied a (get_neighbors m (pos a)) = true ->
  move picks i m = Some (set_happy (S (happy m)) m).
Proof. intros Hi Hs. unfold move. by rewrite Hi, Hs. Qed.

(** When every registered agent is satisfied, the moves count each agent
    of the order as happy and change nothing else. *)
Lemma run_moves_all_satisfied sample_picks m order : forall h,
  Forall (fun i => (i < length (agents m))%nat) order ->
  (forall a, a ∈ agents m ->
     is_satisfied a (get_neighbors m (pos a)) = true) ->
  run_moves sample_picks order (set_happy h m)
  = Some (set_happy (h + length order) m).
Proof.
  induction order as [|i rest IH]; intros h Hord Hsat; cbn [run_moves].
  - cbn. by rewrite Nat.add_0_r.
  - apply Forall_cons in Hord as [Hi Hrest].
    destruct (lookup_lt_is_Some_2 _ _ Hi) as [a Ha].
    rewrite (move_satisfied _ i (set_happy h m) a); [| exact Ha |].
    + cbn [mbind option_bind]. change (set_happy (S (happy (set_happy h m)))
        (set_happy h m)) with (set_happy (S h) m).
      rewrite IH by assumption. cbn [length].
      by rewrite Nat.add_succ_r.
    + apply Hsat. by eapply list_elem_of_lookup_2.
Qed.

Lemma activation_order_spec picks m :
  length (activation_order picks m) = length (agents m)
  /\ Forall (fun i => (i < length (agents m))%nat) (activation_order picks m).
Proof.
  unfold activation_order. split.
  - by rewrite shuffle_length, length_seq.
  - apply Forall_forall. intros i Hi.
    apply draw_from_elem_of, elem_of_seq in Hi. lia.
Qed.

(** C8 (as the code has it).  In a state where every agent's threshold is
    0 and every agent has at least one neighbour within the radius, one
    step completes, leaves every agent in place, makes happy equal to the
    number of agents and clears the running flag. *)
Theorem C8_zero_threshold_converges (m : SchellingModel)
  (order_picks : list nat) (sample_picks : nat -> list nat) :
  (forall a, a ∈ agents m -> threshold a == 0) ->
  (forall a, a ∈ agents m -> get_neighbors m (pos a) <> []) ->
  exists m',
    step order_picks sample_picks m = Some m'
    /\ happy m' = length (agents m')
    /\ running m' = false
    /\ agents m' = agents m.
Proof.
  intros Hzero Hnb.
  assert (Hsat : forall a, a ∈ agents m ->
            is_satisfied a (get_neighbors m (pos a)) = true).
  { intros a Ha. rewrite is_satisfied_zero by auto.
    specialize (Hnb a Ha). by destruct (get_neighbors m (pos a)). }
  destruct (activation_order_spec order_picks m) as [Hlen Hord].
  unfold step.
  change (activation_order order_picks (set_happy 0 m))
    with (activation_order order_picks m).
  rewrite (run_moves_all_satisfied sample_picks m _ 0%nat Hord Hsat).
  cbn [mbind option_bind]. eexists. split; [reflexivity|].
  rewrite Hlen. cbn. split; [reflexivity|]. split; [|reflexivity].
  apply Nat.ltb_irrefl.
Qed.

(** Two neighbours with threshold 0 on a 3 x 3 grid. *)
Lemma C8_zero_threshold_converges_witness :
  exists m g m',
    SchellingModel_init pair_config zero_thresholds = Some (m, g)
    /\ length (agents m) = 2%nat
    /\ step [] first_cells m = Some m'
    /\ happy m' = length (agents m').
Proof.
  evar (m : SchellingModel). evar (g : Globals).
  assert (H0 : SchellingModel_init pair_config zero_thresholds = Some (m, g))
    by (subst m g; vm_compute; reflexivity).
  assert (Hz : forall a, a ∈ agents m -> threshold a == 0).
  { intros a Ha. subst m. cbn [agents] in Ha.
    repeat (apply elem_of_cons in Ha as [-> | Ha]; [reflexivity|]).
    by apply elem_of_nil in Ha. }
  assert (Hn : forall a, a ∈ agents m -> get_neighbors m (pos a) <> []).
  { intros a Ha. subst m. cbn [agents] in Ha.
    repeat (apply elem_of_cons in Ha as [-> | Ha]; [vm_compute; discriminate|]).
    by apply elem_of_nil in Ha. }
  destruct (C8_zero_threshold_converges m [] first_cells Hz Hn)
    as (m' & Hstep & Hhappy & _).
  exists m, g, m'. split; [exact H0|]. split; [reflexivity|].
  split; [exact Hstep | exact Hhappy].
Defined.

(** C8 fails for an agent without neighbours: alone on a 3 x 3 grid with a
    threshold of 0 it is not satisfied, is not counted happy and moves, so
    after one step happy is 0 while the model has one agent. *)
Lemma C8_lone_agent_not_happy :
  exists m g m',
    SchellingModel_init lone_config zero_thresholds = Some (m, g)
    /\ Forall (fun a => threshold a == 0) (agents m)
    /\ step [] first_cells m = Some m'
    /\ length (agents m') = 1%nat
    /\ happy m' = 0%nat
    /\ happy m' <> length (agents m')
    /\ running m' = true.
Proof.
  eexists _, _, _.
  split; [vm_compute; reflexivity|].
  split; [repeat constructor|].
  split; [vm_compute; reflexivity|].
  vm_compute. repeat split; discriminate.
Qed.

(** ** The adaptive flag and the thresholds *)

Lemma SchellingAgent_init_not_adaptive uid p g a g' :
  SchellingAgent_init uid p g = Some (a, g') -> not_adaptive a.
Proof.
  unfold SchellingAgent_init. cbn [np_next]. intros H. bind_inv H.
  by injection H as <- _.
Qed.

Lemma place_agents_not_adaptive cells : forall seeded g m m' g',
  place_agents cells seeded g m = Some (m', g') ->
  Forall not_adaptive (agents m) -> Forall not_adaptive (agents m').
Proof.
  induction cells as [|p rest IH]; intros seeded g m m' g' H Hm;
    cbn [place_agents np_next] in H.
  - by injection H as <- _.
  - destruct (Qltb _ (density m)).
    + bind_inv H. destruct p0 as [a g1].
      eapply IH; [exact H|]. cbn [set_agents agents].
      apply Forall_app. split; [exact Hm|].
      constructor; [|constructor].
      by eapply SchellingAgent_init_not_adaptive.
    + by eapply IH.
Qed.

Lemma SchellingModel_init_not_adaptive cfg g m g' :
  SchellingModel_init cfg g = Some (m, g') -> Forall not_adaptive (agents m).
Proof.
  unfold SchellingModel_init. intros H. bind_inv H. destruct p as [m1 g1].
  injection H as <- _. cbn [collect set_model_vars agents].
  eapply place_agents_not_adaptive; [exact E|]. constructor.
Qed.

(** A move of an agent that is not adaptive takes the branch that keeps
    the threshold. *)
Lemma relocate_not_adaptive a p :
  not_adaptive a ->
  not_adaptive (relocate a p) /\ id_threshold (relocate a p) = id_threshold a.
Proof.
  unfold not_adaptive, id_threshold, relocate. intros Ha.
  cbn [adaptive threshold unique_id]. rewrite Ha. by split.
Qed.

Lemma move_thresholds picks i m m' :
  move picks i m = Some m' ->
  Forall not_adaptive (agents m) ->
  Forall not_adaptive (agents m')
  /\ id_threshold <$> agents m' = id_threshold <$> agents m.
Proof.
  unfold move. destruct (agents m !! i) as [a|] eqn:Hi.
  - destruct (is_satisfied a _).
    + intros [= <-] Hm. by split.
    + intros H Hm. bind_inv H. destruct o as [p|].
      * injection H as <-. cbn [set_agents agents].
        assert (Ha : not_adaptive a).
        { eapply Forall_lookup_1; eassumption. }
        destruct (relocate_not_adaptive a p Ha) as [Hr1 Hr2]. split.
        -- by apply Forall_insert.
        -- rewrite list_fmap_insert, Hr2. apply list_insert_id.
           by rewrite list_lookup_fmap, Hi.
      * injection H as <-. by split.
  - intros [= <-] Hm. by split.
Qed.

Lemma run_moves_thresholds sample_picks order : forall m m',
  run_moves sample_picks order m = Some m' ->
  Forall not_adaptive (agents m) ->
  Forall not_adaptive (agents m')
  /\ id_threshold <$> agents m' = id_threshold <$> agents m.
Proof.
  induction order as [|i rest IH]; intros m m' H Hm; cbn [run_moves] in H.
  - injection H as <-. by split.
  - bind_inv H.
    destruct (move_thresholds _ _ _ _ E Hm) as [H1 H2].
    destruct (IH _ _ H H1) as [H3 H4]. split; [exact H3 | congruence].
Qed.

Lemma step_thresholds order_picks sample_picks m m' :
  step order_picks sample_picks m = Some m' ->
  Forall not_adaptive (agents m) ->
  Forall not_adaptive (agents m')
  /\ id_threshold <$> agents m' = id_threshold <$> agents m.
Proof.
  unfold step. intros H Hm. bind_inv H. injection H as <-.
  cbn [set_running collect set_model_vars agents].
  by eapply run_moves_thresholds in E.
Qed.

(** C10.  Every agent is constructed with adaptive = False and nothing
    sets the flag: in every state a run reaches, every agent is not
    adaptive, carries the identity and threshold it was constructed with,
    and a move would leave its threshold as it is. *)
Theorem C10_thresholds_constant (cfg : Config) (g g' : Globals)
  (m0 m : SchellingModel) :
  SchellingModel_init cfg g = Some (m0, g') ->
  runs_to m0 m ->
  Forall (fun a => adaptive a = false) (agents m)
  /\ id_threshold <$> agents m = id_threshold <$> agents m0
  /\ (forall a p, a ∈ agents m -> threshold (relocate a p) = threshold a).
Proof.
  intros Hinit Hrun.
  assert (H : Forall not_adaptive (agents m)
              /\ id_threshold <$> agents m = id_threshold <$> agents m0).
  { induction Hrun as [|m1 m2 op sp Hrun [IH1 IH2] Hstep].
    - split; [|reflexivity]. by eapply SchellingModel_init_not_adaptive.
    - destruct (step_thresholds _ _ _ _ Hstep IH1) as [H1 H2].
      split; [exact H1 | congruence]. }
  destruct H as [H1 H2]. split; [exact H1|]. split; [exact H2|].
  intros a p Ha.
  assert (Hna : not_adaptive a).
  { eapply Forall_forall in H1; eassumption. }
  destruct (relocate_not_adaptive a p Hna) as [_ Hid].
  by injection Hid.
Qed.

(** The lone agent moves in its first tick and keeps its threshold. *)
Lemma C10_thresholds_constant_witness :
  exists m0 g' m,
    SchellingModel_init lone_config zero_thresholds = Some (m0, g')
    /\ step [] first_cells m0 = Some m
    /\ past_moves <$> agents m = [1%nat]
    /\ Forall (fun a => adaptive a = false) (agents m)
    /\ id_threshold <$> agents m = id_threshold <$> agents m0.
Proof.
  evar (m0 : SchellingModel). evar (g' : Globals). evar (m : SchellingModel).
  assert (H0 : SchellingModel_init lone_config zero_thresholds
               = Some (m0, g'))
    by (subst m0 g'; vm_compute; reflexivity).
  assert (H1 : step [] first_cells m0 = Some m)
    by (subst m; vm_compute; reflexivity).
  pose proof (C10_thresholds_constant lone_config zero_thresholds g' m0 m H0
                (runs_to_step m0 m0 m [] first_cells (runs_to_refl m0) H1))
    as (Ha & Ht & _).
  exists m0, g', m. split; [exact H0|]. split; [exact H1|].
  split; [reflexivity|]. split; [exact Ha | exact Ht].
Defined.

(** ** The seed and the global generators *)

(** The seed fixes which cells are occupied, not the agents: two models
    built with the same configuration and seed, whose agents drew
    different income classes from numpy's global generator, record
    different happy counts at tick 1. *)
Lemma seed_does_not_fix_the_agents :
  exists ma ga mb gb ma' mb',
    SchellingModel_init pair_config high_thresholds_alike = Some (ma, ga)
    /\ SchellingModel_init pair_config high_thresholds = Some (mb, gb)
    /\ step [] first_cells ma = Some ma'
    /\ step [] first_cells mb = Some mb'
    /\ fst <$> model_vars ma' = [0; 2]%nat
    /\ fst <$> model_vars mb' = [0; 0]%nat.
Proof.
  eexists _, _, _, _, _, _.
  repeat (split; [vm_compute; reflexivity|]).
  vm_compute; reflexivity.
Qed.

End SchellingTheory.

(** * Further properties of the code *)

(** ** A shuffle is a permutation *)

Section DrawPermutation.
Context {A : Type}.
Implicit Types (pool l : list A) (picks : list nat).

Lemma draw_from_Permutation k : forall picks pool,
  k = length pool -> draw_from picks pool k ≡ₚ pool.
Proof.
  induction k as [|k IH]; intros picks pool Hk; cbn [draw_from].
  - symmetry in Hk. apply nil_length_inv in Hk. by subst.
  - assert (Hj : (hd 0%nat picks mod length pool < length pool)%nat)
      by (apply Nat.mod_upper_bound; lia).
    destruct (lookup_lt_is_Some_2 _ _ Hj) as [x Hx]. rewrite Hx.
    etrans; [|symmetry; exact (delete_Permutation pool _ x Hx)].
    constructor. apply IH. rewrite length_delete by eauto. lia.
Qed.

Lemma shuffle_Permutation picks l : shuffle picks l ≡ₚ l.
Proof. unfold shuffle. by apply draw_from_Permutation. Qed.

(** Every order is the shuffle of some picks. *)
Lemma shuffle_surjective l' : forall l,
  l' ≡ₚ l -> exists picks, shuffle picks l = l'.
Proof.
  unfold shuffle. induction l' as [|x l' IH]; intros l Hp.
  - apply Permutation_nil_l in Hp. subst. by exists [].
  - assert (Hx : x ∈ l) by (rewrite <- Hp; apply elem_of_cons; by left).
    apply list_elem_of_lookup_1 in Hx as [j Hj].
    pose proof (lookup_lt_Some _ _ _ Hj) as Hlt.
    assert (Hrest : l' ≡ₚ delete j l).
    { apply (Permutation_cons_inv (a := x)).
      etrans; [exact Hp | exact (delete_Permutation l j x Hj)]. }
    destruct (IH _ Hrest) as [picks Hpicks].
    exists (j :: picks).
    destruct l as [|y l]; [discriminate Hj|].
    cbn [length draw_from hd tl]. rewrite Nat.mod_small by exact Hlt.
    rewrite Hj. f_equal.
    rewrite length_delete in Hpicks by eauto. cbn [length] in Hpicks.
    by rewrite Nat.sub_1_r in Hpicks.
Qed.

End DrawPermutation.

Module MacroExtras.
Import Macro MacroTheory.

(** ** Households *)

Lemma Household_steps_formal ms : forall h,
  h_formal (Household_steps ms h) = h_formal h.
Proof. induction ms as [|m ms IH]; intros h; cbn; [reflexivity | by rewrite IH]. Qed.

(** X1.  Each step of a household removes the fraction [adjustment_speed] (0.5
    for a formal household, 0.2 otherwise) of the gap between its expected
    inflation and the central bank's target: after [n] steps under a
    target [T] the gap is (1 - speed)^n times the initial one. *)
Theorem expectation_gap_contracts (ms : list InflationModel) (h : Household)
  (T : Q) :
  Forall (fun m => inflation_target (central_bank m) == T) ms ->
  expected_inflation (Household_steps ms h) - T
  == (1 - adjustment_speed h) ^ Z.of_nat (length ms)
     * (expected_inflation h - T).
Proof.
  revert h. induction ms as [|m ms IH]; intros h Hms.
  - cbn [Household_steps length]. change (Z.of_nat 0) with 0%Z.
    rewrite Qpower_0_r. ring.
  - apply Forall_cons in Hms as [Hm Hms].
    cbn [Household_steps length]. rewrite (IH _ Hms).
    replace (Z.of_nat (S (length ms))) with (Z.of_nat (length ms) + 1)%Z
      by lia.
    rewrite Qpower_plus' by lia. rewrite Qpower_1_r.
    unfold adjustment_speed, Household_step.
    cbn [fst expected_inflation h_formal]. rewrite Hm.
    destruct (h_formal h); ring.
Qed.

Lemma expectation_gap_contracts_witness :
  let h := Household_init 1 small_model true 100 100 in
  expected_inflation (Household_steps [small_model; small_model] h) - 0.03
  == 0.0125.
Proof.
  cbn zeta.
  rewrite (expectation_gap_contracts [small_model; small_model]
             (Household_init 1 small_model true 100 100) 0.03).
  - vm_compute. reflexivity.
  - repeat constructor.
Defined.

(** X2.  While the interest rate is within its bounds, the subsistence floor
    of a household with a non-negative income does not bind: it consumes
    income * 0.8 * (1 - sensitivity * rate), between 72% and 80% of its
    income, and its savings grow by at least 20% of its income. *)
Theorem consumption_within_income (h : Household) (m : InflationModel) :
  household_params h ->
  rate_in_bounds (interest_rate (central_bank m)) ->
  0 <= income h ->
  let c := Household_consumption h m in
  c == income h * 0.8
       * (1 - (if h_formal h then 0.5 else 0.1)
              * interest_rate (central_bank m))
  /\ 0.72 * income h <= c
  /\ c <= 0.8 * income h
  /\ savings h + 0.2 * income h <= savings (fst (Household_step h m)).
Proof.
  intros [Hcr Hs] [Hlo Hhi] Hinc. cbn zeta.
  set (r := interest_rate (central_bank m)) in *.
  assert (Hc : Household_consumption h m
               == income h * 0.8 * (1 - (if h_formal h then 0.5 else 0.1) * r)).
  { unfold Household_consumption. fold r.
    match goal with
    | |- py_max ?a ?b == _ =>
        destruct (py_max_cases a b) as [[H ->]|[H ->]]
    end.
    - exfalso. rewrite Hcr, Hs in H. destruct (h_formal h); nra.
    - rewrite Hcr, Hs. ring. }
  split; [exact Hc|].
  unfold Household_step. cbn [fst savings]. rewrite Hc.
  destruct (h_formal h); repeat split; nra.
Qed.

Lemma consumption_within_income_witness :
  let h := Household_init 1 small_model true 100 100 in
  0.72 * income h <= Household_consumption h small_model
  /\ Household_consumption h small_model <= 0.8 * income h.
Proof.
  cbn zeta.
  assert (Hr : rate_in_bounds (interest_rate (central_bank small_model)))
    by (vm_compute; split; discriminate).
  assert (Hi : 0 <= income (Household_init 1 small_model true 100 100))
    by (vm_compute; discriminate).
  pose proof (consumption_within_income
                (Household_init 1 small_model true 100 100) small_model
                (Household_init_params _ _ _ _ _) Hr Hi) as (_ & H1 & H2 & _).
  split; [exact H1 | exact H2].
Defined.

(** ** Firms *)

Lemma Firm_step_Some (f : Firm) (m : InflationModel) :
  ~ total_production_capacity m == 0 -> ~ production_capacity f == 0 ->
  exists r, Firm_step f m = Some r.
Proof.
  intros H1 H2. unfold Firm_step, Firm_demand_pressure.
  rewrite (py_div_nonzero _ _ H1). cbn [mbind option_bind].
  rewrite (py_div_nonzero _ _ H2). cbn [mbind option_bind]. by eexists.
Qed.

(** X3.  [Firm.step] raises exactly when the total capacity of the model or the
    capacity of the firm is zero. *)
Theorem Firm_step_raises (f : Firm) (m : InflationModel) :
  Firm_step f m = None
  <-> total_production_capacity m == 0 \/ production_capacity f == 0.
Proof.
  unfold Firm_step, Firm_demand_pressure.
  destruct (py_div (aggregate_demand m) (total_production_capacity m))
    as [q|] eqn:E1; cbn [mbind option_bind].
  - apply py_div_Some in E1 as [Hnz _].
    destruct (py_div (current_production f) (production_capacity f))
      as [u|] eqn:E2; cbn [mbind option_bind].
    + apply py_div_Some in E2 as [Hnz2 _].
      split; [discriminate | intros [H|H]; contradiction].
    + apply py_div_None in E2. split; [by right | reflexivity].
  - apply py_div_None in E1. split; [by left | reflexivity].
Qed.

(** X4.  A firm's step changes its price by a factor between 0.95 and 1.10,
    whatever the demand pressure, the expectations and the target: a
    positive price stays positive. *)
Theorem price_change_bounded (f f' : Firm) (m m' : InflationModel) :
  0 < price_level f ->
  Firm_step f m = Some (f', m') ->
  0.95 * price_level f <= price_level f'
  /\ price_level f' <= 1.10 * price_level f
  /\ 0 < price_level f'.
Proof.
  intros Hp Hstep. unfold Firm_step in Hstep.
  bind_inv Hstep. bind_inv Hstep. injection Hstep as <- _.
  cbn [price_level].
  match goal with
  | |- context [py_max (-0.05) (py_min ?x 0.1)] =>
      pose proof (clamp_bounds (-0.05) 0.1 x ltac:(lra)) as [Hlo Hhi];
      set (b := py_max (-0.05) (py_min x 0.1)) in *
  end.
  repeat split; nra.
Qed.

Lemma price_change_bounded_witness :
  let f := Firm_init 2 true 130 in
  exists f' m',
    Firm_step f small_model = Some (f', m')
    /\ 0.95 * price_level f <= price_level f'
    /\ price_level f' <= 1.10 * price_level f.
Proof.
  cbn zeta.
  evar (f' : Firm). evar (m' : InflationModel).
  assert (H : Firm_step (Firm_init 2 true 130) small_model = Some (f', m'))
    by (subst f' m'; vm_compute; reflexivity).
  assert (Hp : 0 < price_level (Firm_init 2 true 130))
    by (vm_compute; reflexivity).
  pose proof (price_change_bounded _ _ _ _ Hp H) as (H1 & H2 & _).
  exists f', m'. split; [exact H|]. split; [exact H1 | exact H2].
Defined.

(** ** When a tick completes *)

Lemma activate_lookup_other i j m m' :
  activate i m = Some m' -> i <> j -> schedule m' !! j = schedule m !! j.
Proof.
  unfold activate. destruct (schedule m !! i) as [[|h|f]|] eqn:Hi.
  - unfold CentralBank_step. intros H. bind_inv H. by injection H as <-.
  - cbn. intros [= <-] Hne. cbn. by apply list_lookup_insert_ne.
  - intros H Hne. bind_inv H. destruct p as [f' m1]. injection H as <-.
    apply Firm_step_frame in E as (_ & Hs & _). cbn. rewrite Hs.
    by apply list_lookup_insert_ne.
  - by intros [= <-].
Qed.

(** What a firm's step does to the firm and to the totals. *)
Lemma Firm_step_spec f m f' m' :
  Firm_step f m = Some (f', m') ->
  production_capacity f' = production_capacity f
  /\ total_production m' = total_production m + current_production f'
  /\ price_index_numerator m'
     = price_index_numerator m + price_level f' * current_production f'
  /\ (0 < production_capacity f ->
      0.5 * production_capacity f <= current_production f'
      /\ current_production f' <= production_capacity f)
  /\ (0 < price_level f -> 0 < price_level f').
Proof.
  unfold Firm_step. intros H. bind_inv H. bind_inv H.
  injection H as <- <-.
  cbn [production_capacity current_production price_level total_production
       price_index_numerator set_price_index_numerator set_total_production].
  split; [reflexivity|]. split; [reflexivity|]. split; [reflexivity|].
  split.
  - intros Hcap.
    pose proof (clamp_bounds 0.5 1.0 (q0 + 0.1 * q) ltac:(lra)) as [Hlo Hhi].
    split; nra.
  - intros Hp.
    match goal with
    | |- context [py_max (-0.05) (py_min ?x 0.1)] =>
        pose proof (clamp_bounds (-0.05) 0.1 x ltac:(lra)) as [Hlo Hhi];
        set (b := py_max (-0.05) (py_min x 0.1)) in *
    end.
    nra.
Qed.

Lemma Firm_step_ok f m f' m' :
  firm_ok f -> Firm_step f m = Some (f', m') -> firm_ok f'.
Proof.
  intros (Hcap & Hp & _) H.
  apply Firm_step_spec in H as (Hc & _ & _ & Hprod & Hprice).
  destruct (Hprod Hcap) as [H1 H2]. unfold firm_ok. rewrite Hc.
  repeat split; auto.
Qed.

Lemma activate_ok i m m' :
  activate i m = Some m' ->
  Forall agent_ok (schedule m) -> Forall agent_ok (schedule m').
Proof.
  unfold activate. destruct (schedule m !! i) as [[|h|f]|] eqn:Hi.
  - unfold CentralBank_step. intros H. bind_inv H. by injection H as <-.
  - cbn. intros [= <-] Hok. cbn. by apply Forall_insert.
  - intros H Hok. bind_inv H. destruct p as [f' m1]. injection H as <-.
    pose proof (Forall_lookup_1 _ _ _ _ Hok Hi) as Hf.
    pose proof (Firm_step_ok _ _ _ _ Hf E) as Hf'.
    apply Firm_step_frame in E as (_ & Hs & _). cbn. rewrite Hs.
    by apply Forall_insert.
  - by intros [= <-].
Qed.

Lemma bank_before_firms_kinds s1 s2 order :
  kind <$> s1 = kind <$> s2 ->
  bank_before_firms s1 order = bank_before_firms s2 order.
Proof.
  intros Hk. induction order as [|i rest IH]; cbn [bank_before_firms];
    [reflexivity|].
  assert (Hi : kind <$> (s1 !! i) = kind <$> (s2 !! i))
    by (by rewrite <- !list_lookup_fmap, Hk).
  destruct (s1 !! i) as [[|h1|f1]|], (s2 !! i) as [[|h2|f2]|];
    try discriminate Hi; auto.
Qed.

(** Once a firm has produced, no step of the tick raises. *)
Lemma run_agents_completes order : forall m,
  Forall agent_ok (schedule m) ->
  0 < total_production_capacity m ->
  0 < total_production m -> 0 < price_index_numerator m ->
  exists m',
    run_agents order m = Some m'
    /\ Forall agent_ok (schedule m')
    /\ 0 < total_production m' /\ 0 < price_index_numerator m'.
Proof.
  induction order as [|i rest IH]; intros m Hok Hcap Htp Hnum;
    cbn [run_agents]; [by eauto|].
  assert (Hact : exists m1,
             activate i m = Some m1
             /\ 0 < total_production m1 /\ 0 < price_index_numerator m1).
  { unfold activate. destruct (schedule m !! i) as [[|h|f]|] eqn:Hi.
    - unfold CentralBank_step.
      rewrite py_div_nonzero by lra. cbn. eauto.
    - cbn. eauto.
    - pose proof (Forall_lookup_1 _ _ _ _ Hok Hi) as (Hc & Hp & _).
      destruct (Firm_step f m) as [[f' m1]|] eqn:E.
      + cbn. eexists. split; [reflexivity|]. cbn.
        apply Firm_step_spec in E as (_ & -> & -> & Hprod & Hprice).
        destruct (Hprod Hc) as [H1 _]. specialize (Hprice Hp). split; nra.
      + destruct (Firm_step_Some f m) as [r Hr]; [lra | lra | congruence].
    - eauto. }
  destruct Hact as (m1 & Hact & Htp1 & Hnum1). rewrite Hact.
  cbn [mbind option_bind].
  apply IH; auto.
  - by eapply activate_ok.
  - apply activate_frame in Hact as (_ & _ & _ & -> & _). exact Hcap.
Qed.

(** Before any firm has produced, the tick raises exactly when the bank
    is reached first. *)
Lemma run_agents_from_reset order : forall m,
  Forall agent_ok (schedule m) ->
  0 < total_production_capacity m ->
  total_production m == 0 -> price_index_numerator m == 0 ->
  if bank_before_firms (schedule m) order
  then run_agents order m = None
  else exists m',
         run_agents order m = Some m'
         /\ Forall agent_ok (schedule m')
         /\ (0 < total_production m' -> 0 < price_index_numerator m').
Proof.
  induction order as [|i rest IH]; intros m Hok Hcap Htp Hnum;
    cbn [run_agents bank_before_firms].
  - eexists. split; [reflexivity|]. split; [exact Hok|]. lra.
  - destruct (schedule m !! i) as [[|h|f]|] eqn:Hi.
    + unfold activate. rewrite Hi. unfold CentralBank_step.
      by rewrite (proj2 (py_div_None _ _) Htp).
    + assert (Hact : exists m1, activate i m = Some m1).
      { unfold activate. rewrite Hi. cbn. eauto. }
      destruct Hact as [m1 Hact]. rewrite Hact. cbn [mbind option_bind].
      pose proof (activate_frame _ _ _ Hact)
        as (_ & _ & _ & Hcap1 & _ & _ & _ & Hk).
      rewrite <- (bank_before_firms_kinds _ _ rest Hk).
      apply IH.
      * by eapply activate_ok.
      * by rewrite Hcap1.
      * unfold activate in Hact. rewrite Hi in Hact. cbn in Hact.
        injection Hact as <-. exact Htp.
      * unfold activate in Hact. rewrite Hi in Hact. cbn in Hact.
        injection Hact as <-. exact Hnum.
    + pose proof (Forall_lookup_1 _ _ _ _ Hok Hi) as (Hc & Hp & _).
      destruct (Firm_step f m) as [[f' m1]|] eqn:E.
      * assert (Hact : activate i m
                       = Some (set_schedule (<[i:=AgFirm f']> (schedule m1)) m1)).
        { unfold activate. rewrite Hi, E. reflexivity. }
        rewrite Hact. cbn [mbind option_bind].
        pose proof (activate_ok _ _ _ Hact Hok) as Hok1.
        pose proof (activate_frame _ _ _ Hact) as (_ & _ & _ & Hcap1 & _).
        apply Firm_step_spec in E as (_ & Ht & Hn & Hprod & Hprice).
        destruct (Hprod Hc) as [H1 _]. specialize (Hprice Hp).
        destruct (run_agents_completes rest
                    (set_schedule (<[i:=AgFirm f']> (schedule m1)) m1))
          as (m' & Hrun & Hok' & Htp' & Hnum'); auto.
        -- by rewrite Hcap1.
        -- cbn. rewrite Ht. nra.
        -- cbn. rewrite Hn. nra.
        -- rewrite Hrun. eauto.
      * destruct (Firm_step_Some f m) as [r Hr]; [lra | lra | congruence].
    + cbn [activate]. unfold activate. rewrite Hi. cbn [mbind option_bind].
      by apply IH.
Qed.

(** X5.  In a well-formed model a tick raises exactly when the scheduler
    activates the central bank before every firm; every other tick
    completes. *)
Theorem tick_raises_iff (m : InflationModel) (picks : list nat) :
  well_formed m ->
  step picks m = None
  <-> bank_before_firms (schedule m) (activation_order picks m) = true.
Proof.
  intros (Hok & Hpi & Hcap).
  pose proof (run_agents_from_reset
                (activation_order picks (reset_aggregates m))
                (reset_aggregates m) Hok Hcap
                ltac:(reflexivity) ltac:(reflexivity)) as H.
  change (schedule (reset_aggregates m)) with (schedule m) in H.
  change (activation_order picks (reset_aggregates m))
    with (activation_order picks m) in *.
  unfold step, schedule_step.
  change (activation_order picks (reset_aggregates m))
    with (activation_order picks m).
  destruct (bank_before_firms (schedule m) (activation_order picks m)).
  - rewrite H. by split.
  - destruct H as (m1 & Hrun & _ & _). rewrite Hrun.
    cbn [mbind option_bind].
    destruct (finalize m1) as [m2|] eqn:Hfin; [by split|].
    apply finalize_None in Hfin.
    apply run_agents_frame in Hrun as (_ & Hpi1 & _).
    change (price_index (reset_aggregates m)) with (price_index m) in Hpi1.
    rewrite Hpi1 in Hfin. lra.
Qed.

Lemma well_formed_step_aux (m m' : InflationModel) (picks : list nat) :
  well_formed m -> step picks m = Some m' -> well_formed m'.
Proof.
  intros (Hok & Hpi & Hcap) Hstep.
  apply step_phases in Hstep as (m1 & m2 & Hrun & Hfin & ->).
  pose proof (run_agents_from_reset
                (activation_order picks (reset_aggregates m))
                (reset_aggregates m) Hok Hcap
                ltac:(reflexivity) ltac:(reflexivity)) as H.
  destruct (bank_before_firms _ _); [congruence|].
  destruct H as (m1' & Hrun' & Hok1 & Hprog).
  rewrite Hrun in Hrun'. injection Hrun' as <-.
  pose proof (run_agents_frame _ _ _ Hrun) as (_ & Hpi1 & _ & Hcap1 & _).
  change (price_index (reset_aggregates m)) with (price_index m) in Hpi1.
  change (total_production_capacity (reset_aggregates m))
    with (total_production_capacity m) in Hcap1.
  pose proof (finalize_frame _ _ Hfin) as (_ & Hs2 & _).
  pose proof (finalize_spec _ _ Hfin) as (_ & _ & _ & Hpi2 & _).
  assert (Hcap2 : total_production_capacity m2 = total_production_capacity m1).
  { unfold finalize in Hfin. bind_inv Hfin. injection Hfin as <-.
    by destruct (Qltb 0 _). }
  unfold well_formed. cbn [collect set_collected schedule price_index
    total_production_capacity].
  rewrite Hs2, Hcap2, Hcap1, Hpi2. split; [exact Hok1|]. split; [|exact Hcap].
  destruct (Qltb 0 (total_production m1)) eqn:Ht.
  - apply Qltb_true in Ht. specialize (Hprog Ht).
    apply Qlt_shift_div_l; lra.
  - by rewrite Hpi1.
Qed.

Lemma small_model_well_formed : well_formed small_model.
Proof.
  split; [|split; vm_compute; reflexivity].
  repeat constructor; vm_compute; congruence.
Qed.

Lemma tick_raises_iff_witness :
  step [0; 0; 0]%nat small_model = None
  /\ bank_before_firms (schedule small_model)
       (activation_order household_firm_bank small_model) = false
  /\ step household_firm_bank small_model <> None.
Proof.
  pose proof (tick_raises_iff small_model [0; 0; 0]%nat
                small_model_well_formed) as H1.
  pose proof (tick_raises_iff small_model household_firm_bank
                small_model_well_formed) as H2.
  split; [apply H1; vm_compute; reflexivity|].
  split; [vm_compute; reflexivity|].
  intros H. apply H2 in H. vm_compute in H. discriminate.
Defined.

(** ** The population built by the constructor *)

Lemma fmap_insert_same {A B : Type} (g : A -> B) (l : list A) i a b :
  l !! i = Some a -> g b = g a -> g <$> <[i:=b]> l = g <$> l.
Proof.
  intros Hl Hg. rewrite list_fmap_insert, Hg.
  apply list_insert_id. by rewrite list_lookup_fmap, Hl.
Qed.

Lemma create_households_rng cfg k : forall i rng m,
  snd (create_households cfg k i rng m)
  = mkNpRandom (np_draws rng) (np_cursor rng + 3 * k).
Proof.
  induction k as [|k IH]; intros i rng m; cbn [create_households np_next].
  - cbn [snd]. destruct rng as [d c]. cbn. f_equal. lia.
  - rewrite IH. cbn [np_draws np_cursor]. f_equal. lia.
Qed.

Lemma create_households_capacity cfg k : forall i rng m,
  total_production_capacity (fst (create_households cfg k i rng m))
  = total_production_capacity m.
Proof.
  induction k as [|k IH]; intros i rng m; cbn [create_households np_next];
    [reflexivity|]. by rewrite IH.
Qed.

(** The households the constructor registers. *)
Lemma create_households_schedule cfg k : forall i rng m,
  exists hs,
    schedule (fst (create_households cfg k i rng m))
    = schedule m ++ (AgHousehold <$> hs)
    /\ h_unique_id <$> hs = seq i k
    /\ Forall (fun h => expected_inflation h = current_inflation m
                        /\ household_params h) hs.
Proof.
  induction k as [|k IH]; intros i rng m; cbn [create_households np_next].
  - exists []. cbn. by rewrite app_nil_r.
  - match goal with
    | |- context [create_households cfg k (S i) ?r (set_schedule (_ ++ [AgHousehold ?h]) m)] =>
        destruct (IH (S i) r (set_schedule (schedule m ++ [AgHousehold h]) m))
          as (hs & Hs & Hid & Hall); exists (h :: hs)
    end.
    rewrite Hs. cbn [set_schedule schedule fmap list_fmap seq].
    rewrite <- app_assoc. split; [reflexivity|].
    split; [by rewrite <- Hid|].
    constructor; [|exact Hall].
    split; [reflexivity | apply Household_init_params].
Qed.

(** The firms the constructor registers, and the capacity it totals. *)
Lemma create_firms_schedule cfg k : forall i rng m,
  exists fs,
    schedule (fst (create_firms cfg k i rng m))
    = schedule m ++ (AgFirm <$> fs)
    /\ f_unique_id <$> fs = seq i k
    /\ total_production_capacity (fst (create_firms cfg k i rng m))
       == total_production_capacity m + py_sum (production_capacity <$> fs)
    /\ ((forall j, (j < k)%nat ->
           0 < np_draws rng (np_cursor rng + 2 * j + 1)) ->
        Forall firm_ok fs
        /\ ((0 < k)%nat ->
            0 < py_sum (production_capacity <$> fs))
        /\ 0 <= py_sum (production_capacity <$> fs)).
Proof.
  induction k as [|k IH]; intros i rng m; cbn [create_firms np_next].
  - exists []. cbn. rewrite app_nil_r. split; [reflexivity|].
    split; [reflexivity|]. split; [unfold py_sum; cbn; ring|].
    intros _. split; [constructor|]. split; [lia|]. unfold py_sum. cbn. lra.
  - match goal with
    | |- context [create_firms cfg k (S i) ?r
                    (set_total_production_capacity ?c
                       (set_schedule (_ ++ [AgFirm ?f]) m))] =>
        destruct (IH (S i) r
                    (set_total_production_capacity c
                       (set_schedule (schedule m ++ [AgFirm f]) m)))
          as (fs & Hs & Hid & Hcap & Hpos); exists (f :: fs)
    end.
    rewrite Hs. cbn [set_schedule set_total_production_capacity schedule
                     fmap list_fmap seq].
    rewrite <- app_assoc. split; [reflexivity|].
    split; [by rewrite <- Hid|].
    split.
    + rewrite Hcap.
      cbn [set_schedule set_total_production_capacity
           total_production_capacity production_capacity Firm_init].
      rewrite py_sum_cons. cbn [production_capacity]. ring.
    + intros Hdraws.
      destruct Hpos as (Hok & _ & Hnn).
      { intros j Hj. cbn [np_draws np_cursor].
        specialize (Hdraws (S j) ltac:(lia)).
        replace (S (S (np_cursor rng)) + 2 * j + 1)%nat
          with (np_cursor rng + 2 * S j + 1)%nat by lia.
        exact Hdraws. }
      specialize (Hdraws 0%nat ltac:(lia)).
      replace (np_cursor rng + 2 * 0 + 1)%nat with (S (np_cursor rng))
        in Hdraws by lia.
      rewrite py_sum_cons. unfold firm_ok.
      cbn [production_capacity price_level current_production Firm_init
           np_draws np_cursor] in *.
      set (base := np_draws rng (S (np_cursor rng))) in *.
      assert (Hc : 0 < base * (if Qltb (np_draws rng (np_cursor rng))
                                      (cfg_formal_sector_size cfg)
                               then 1.3 else 0.7)).
      { destruct (Qltb _ _); nra. }
      set (c := base * _) in *.
      split; [|split; [intros _|]; lra].
      constructor; [|exact Hok].
      unfold Firm_init.
      cbn [production_capacity price_level current_production].
      repeat split; lra.
Qed.

(** The scheduler of a constructed model: the bank, then the households,
    then the firms. *)
Lemma populated_schedule cfg rng :
  exists hs fs,
    schedule (populated cfg rng)
    = AgCentralBank :: (AgHousehold <$> hs) ++ (AgFirm <$> fs)
    /\ h_unique_id <$> hs = seq 1 (cfg_num_households cfg)
    /\ f_unique_id <$> fs
       = seq (cfg_num_households cfg + 1) (cfg_num_firms cfg)
    /\ Forall (fun h => expected_inflation h = cfg_initial_inflation cfg
                        /\ household_params h) hs
    /\ total_production_capacity (populated cfg rng)
       == py_sum (production_capacity <$> fs)
    /\ ((forall j, (j < cfg_num_firms cfg)%nat ->
           0 < np_draws rng
                 (np_cursor rng + 3 * cfg_num_households cfg + 2 * j + 1)) ->
        Forall firm_ok fs
        /\ ((0 < cfg_num_firms cfg)%nat ->
            0 < py_sum (production_capacity <$> fs))).
Proof.
  unfold populated.
  match goal with
  | |- context [create_households cfg ?k ?i rng ?m0] =>
      destruct (create_households_schedule cfg k i rng m0)
        as (hs & Hs & Hid & Hall);
      pose proof (create_households_rng cfg k i rng m0) as Hr;
      pose proof (create_households_frame cfg k i rng m0) as Hfr;
      set (mr := create_households cfg k i rng m0) in *
  end.
  destruct (create_firms_schedule cfg (cfg_num_firms cfg)
              (cfg_num_households cfg + 1) (snd mr) (fst mr))
    as (fs & Hs2 & Hid2 & Hcap & Hpos).
  exists hs, fs. rewrite Hs2, Hs. cbn [schedule app].
  split; [reflexivity|].
  split; [exact Hid|]. split; [exact Hid2|]. split; [exact Hall|].
  split.
  - rewrite Hcap.
    assert (Hc0 : total_production_capacity (fst mr) = 0)
      by (subst mr; by rewrite create_households_capacity).
    rewrite Hc0. ring.
  - intros Hdraws.
    destruct Hpos as (Hok & Hsum & _); [|by split].
    intros j Hj. rewrite Hr. cbn [np_draws np_cursor].
    by apply Hdraws.
Qed.

Lemma init_schedule cfg rng :
  schedule (fst (InflationModel_init cfg rng)) = schedule (populated cfg rng)
  /\ price_index (fst (InflationModel_init cfg rng)) = 1.0
  /\ total_production_capacity (fst (InflationModel_init cfg rng))
     = total_production_capacity (populated cfg rng)
  /\ central_bank (fst (InflationModel_init cfg rng))
     = CentralBank_init 0 (cfg_inflation_target cfg).
Proof.
  rewrite InflationModel_init_populated.
  destruct (populated_frame cfg rng) as (_ & Hpi & _ & _ & Hcb & _).
  destruct (Qltb 0 (cfg_inflation_shock_size cfg)); cbn; by rewrite Hpi, Hcb.
Qed.

Lemma run_well_formed ticks : forall m m',
  well_formed m -> run ticks m = Some m' -> well_formed m'.
Proof.
  induction ticks as [|picks rest IH]; intros m m' Hwf H; cbn [run] in H.
  - by injection H as <-.
  - bind_inv H. eapply IH; [|exact H]. by eapply well_formed_step_aux.
Qed.

(** X6.  A model built with at least one firm, all of whose capacity draws are
    positive, is well-formed, and so is every state its run reaches: the
    price index stays positive, and every firm keeps a positive price and
    a production between half its capacity and its capacity. *)
Theorem constructed_well_formed (cfg : Config) (rng : NpRandom)
  (ticks : list (list nat)) (m : InflationModel) :
  (0 < cfg_num_firms cfg)%nat ->
  (forall j, (j < cfg_num_firms cfg)%nat ->
     0 < np_draws rng
           (np_cursor rng + 3 * cfg_num_households cfg + 2 * j + 1)) ->
  run ticks (fst (InflationModel_init cfg rng)) = Some m ->
  well_formed m.
Proof.
  intros Hnf Hdraws Hrun. eapply run_well_formed; [|exact Hrun].
  destruct (init_schedule cfg rng) as (Hs & Hpi & Hcap & _).
  destruct (populated_schedule cfg rng)
    as (hs & fs & Hsched & _ & _ & _ & Hsum & Hpos).
  destruct (Hpos Hdraws) as [Hok Hsumpos]. specialize (Hsumpos Hnf).
  unfold well_formed. rewrite Hs, Hpi, Hcap, Hsched.
  split; [|split; [reflexivity | by rewrite Hsum]].
  constructor; [exact I|]. apply Forall_app. split.
  - apply Forall_fmap, Forall_forall. by intros.
  - apply Forall_fmap. exact Hok.
Qed.

Lemma constructed_well_formed_witness :
  exists m,
    run [household_firm_bank; household_firm_bank] small_model = Some m
    /\ well_formed m.
Proof.
  evar (m : InflationModel).
  assert (H : run [household_firm_bank; household_firm_bank]
                  (fst (InflationModel_init small_config
                          (draws_of [0.5; 50; 100; 0.5; 100]))) = Some m)
    by (subst m; vm_compute; reflexivity).
  exists m. split; [exact H|].
  refine (constructed_well_formed small_config
            (draws_of [0.5; 50; 100; 0.5; 100])
            [household_firm_bank; household_firm_bank] m _ _ H).
  - vm_compute. lia.
  - intros j Hj. change (cfg_num_firms small_config) with 1%nat in Hj.
    destruct j as [|j]; [vm_compute; reflexivity | lia].
Defined.

(** ** A model without firms *)

(** While nothing has been produced and no firm is registered, a tick
    that reaches the central bank raises. *)
Lemma run_agents_no_firm order : forall m,
  total_production m == 0 ->
  TFirm ∉ kind <$> schedule m ->
  (exists i, i ∈ order /\ schedule m !! i = Some AgCentralBank) ->
  run_agents order m = None.
Proof.
  induction order as [|i rest IH]; intros m Htp Hnf (j & Hj & Hbank).
  - by apply elem_of_nil in Hj.
  - cbn [run_agents].
    destruct (schedule m !! i) as [[|h|f]|] eqn:Hi.
    + unfold activate. rewrite Hi. unfold CentralBank_step.
      by rewrite (proj2 (py_div_None _ _) Htp).
    + assert (Hne : j <> i) by (intros ->; congruence).
      apply elem_of_cons in Hj as [->|Hj]; [done|].
      assert (Hact : exists m1, activate i m = Some m1).
      { unfold activate. rewrite Hi. cbn. eauto. }
      destruct Hact as [m1 Hact]. rewrite Hact. cbn [mbind option_bind].
      pose proof (activate_frame _ _ _ Hact) as (_ & _ & _ & _ & _ & _ & _ & Hk).
      apply IH.
      * unfold activate in Hact. rewrite Hi in Hact. cbn in Hact.
        injection Hact as <-. exact Htp.
      * by rewrite Hk.
      * exists j. split; [exact Hj|].
        rewrite (activate_lookup_other _ _ _ _ Hact) by done. exact Hbank.
    + exfalso. apply Hnf. apply list_elem_of_fmap. exists (AgFirm f).
      split; [reflexivity|]. by eapply list_elem_of_lookup_2.
    + assert (Hne : j <> i) by (intros ->; congruence).
      apply elem_of_cons in Hj as [->|Hj]; [done|].
      unfold activate. rewrite Hi. cbn [mbind option_bind].
      apply IH; eauto.
Qed.

(** X7.  A model built without firms cannot complete a tick: whatever the
    activation order, the central bank's step divides by a total
    production of 0. *)
Theorem no_firms_no_tick (cfg : Config) (rng : NpRandom) (picks : list nat) :
  cfg_num_firms cfg = 0%nat ->
  step picks (fst (InflationModel_init cfg rng)) = None.
Proof.
  intros Hnf. set (m := fst (InflationModel_init cfg rng)).
  destruct (init_schedule cfg rng) as (Hs & _).
  destruct (populated_schedule cfg rng) as (hs & fs & Hsched & _ & Hfs & _).
  rewrite Hnf in Hfs. cbn [seq] in Hfs. apply fmap_nil_inv in Hfs. subst fs.
  fold m in Hs. rewrite Hsched in Hs. cbn [fmap list_fmap] in Hs.
  rewrite app_nil_r in Hs.
  unfold step, schedule_step.
  rewrite (run_agents_no_firm _ (reset_aggregates m)); [reflexivity | ..].
  - reflexivity.
  - change (schedule (reset_aggregates m)) with (schedule m). rewrite Hs.
    intros Hin. apply list_elem_of_fmap in Hin as (a & Ha & Hin).
    apply elem_of_cons in Hin as [->|Hin]; [discriminate|].
    apply list_elem_of_fmap in Hin as (h & -> & _). discriminate.
  - exists 0%nat. split.
    + unfold activation_order.
      rewrite (shuffle_Permutation picks _).
      change (schedule (reset_aggregates m)) with (schedule m). rewrite Hs.
      cbn [length seq]. apply elem_of_cons. by left.
    + change (schedule (reset_aggregates m)) with (schedule m).
      by rewrite Hs.
Qed.

Lemma no_firms_no_tick_witness :
  step [1; 0]%nat
       (fst (InflationModel_init (mkConfig 1 0 0.6 0.7 0.03 0.08 0)
                                 (draws_of [0.5; 50; 100]))) = None.
Proof.
  apply (no_firms_no_tick (mkConfig 1 0 0.6 0.7 0.03 0.08 0)). reflexivity.
Defined.

(** ** Identities, population and collected series *)

Lemma kind_households hs :
  kind <$> (AgHousehold <$> hs) = replicate (length hs) THousehold.
Proof. induction hs as [|h hs IH]; cbn; [reflexivity | by f_equal]. Qed.

Lemma kind_firms fs : kind <$> (AgFirm <$> fs) = replicate (length fs) TFirm.
Proof. induction fs as [|f fs IH]; cbn; [reflexivity | by f_equal]. Qed.

Lemma agent_id_bank m m' :
  cb_unique_id (central_bank m') = cb_unique_id (central_bank m) ->
  forall l : list Agent, agent_id m' <$> l = agent_id m <$> l.
Proof.
  intros Hcb l. apply list_fmap_ext. intros _ [|h|f] _; cbn; congruence.
Qed.

Lemma activate_ids i m m' :
  activate i m = Some m' ->
  agent_id m' <$> schedule m' = agent_id m <$> schedule m.
Proof.
  unfold activate. destruct (schedule m !! i) as [[|h|f]|] eqn:Hi.
  - unfold CentralBank_step. intros H. bind_inv H. injection H as <-.
    cbn [set_central_bank schedule]. by apply agent_id_bank.
  - cbn. intros [= <-]. cbn [set_schedule schedule].
    etrans; [by apply (agent_id_bank m)|].
    by apply fmap_insert_same with (a := AgHousehold h).
  - intros H. bind_inv H. destruct p as [f' m1]. injection H as <-.
    pose proof (Firm_step_spec _ _ _ _ E) as _.
    assert (Hid : f_unique_id f' = f_unique_id f).
    { unfold Firm_step in E. bind_inv E. bind_inv E. by injection E as <- _. }
    apply Firm_step_frame in E as (_ & Hs & Hcb & _).
    cbn [set_schedule schedule]. rewrite Hs.
    etrans; [apply (agent_id_bank m); cbn; by rewrite Hcb|].
    by apply fmap_insert_same with (a := AgFirm f).
  - by intros [= <-].
Qed.

Lemma run_agents_ids order : forall m m',
  run_agents order m = Some m' ->
  agent_id m' <$> schedule m' = agent_id m <$> schedule m.
Proof.
  induction order as [|i rest IH]; intros m m' H; cbn in H.
  - by injection H as <-.
  - bind_inv H. rewrite (IH _ _ H). by eapply activate_ids.
Qed.

(** What a completed tick adds to the collected series and leaves to the
    population. *)
Lemma step_series picks m m' :
  step picks m = Some m' ->
  kind <$> schedule m' = kind <$> schedule m
  /\ agent_id m' <$> schedule m' = agent_id m <$> schedule m
  /\ model_vars m' = model_vars m ++ [model_reporters m']
  /\ agent_records m'
     = agent_records m ++ [agent_reporters m' <$> schedule m'].
Proof.
  intros H. apply step_phases in H as (m1 & m2 & Hrun & Hfin & ->).
  pose proof (run_agents_frame _ _ _ Hrun)
    as (_ & _ & _ & _ & Hmv & Har & _ & Hk).
  pose proof (run_agents_ids _ _ _ Hrun) as Hid.
  assert (Hfin' : schedule m2 = schedule m1
                  /\ central_bank m2 = central_bank m1
                  /\ model_vars m2 = model_vars m1
                  /\ agent_records m2 = agent_records m1).
  { unfold finalize in Hfin. bind_inv Hfin. injection Hfin as <-.
    by destruct (Qltb 0 _). }
  destruct Hfin' as (Hs2 & Hcb2 & Hmv2 & Har2).
  cbn [collect set_collected schedule model_vars agent_records].
  rewrite Hs2, Hmv2, Har2, Hmv, Har. split; [exact Hk|]. split.
  - etrans; [apply (agent_id_bank m1); cbn; by rewrite Hcb2|]. exact Hid.
  - split; reflexivity.
Qed.

Lemma agent_reporters_ids m (l : list Agent) :
  av_unique_id <$> (agent_reporters m <$> l) = agent_id m <$> l.
Proof.
  rewrite <- list_fmap_compose. apply list_fmap_ext.
  by intros _ [|h|f] _.
Qed.

Lemma run_series kinds n ticks : forall m m' k,
  series_inv kinds n k m -> run ticks m = Some m' ->
  series_inv kinds n (length ticks + k) m'.
Proof.
  induction ticks as [|picks rest IH]; intros m m' k H0 Hrun;
    cbn [run] in Hrun.
  - injection Hrun as <-. exact H0.
  - bind_inv Hrun.
    destruct H0 as (Hk & Hid & Hmv & Har & Hrows).
    pose proof (step_series _ _ _ E) as (Hk1 & Hid1 & Hmv1 & Har1).
    replace (length (picks :: rest) + k)%nat
      with (length rest + S k)%nat by (cbn [length]; lia).
    apply (IH i); [|exact Hrun].
    split; [congruence|]. split; [congruence|].
    rewrite Hmv1, Har1, !length_app. cbn [length].
    split; [lia|]. split; [lia|].
    apply Forall_app. split; [exact Hrows|].
    constructor; [|constructor].
    rewrite agent_reporters_ids. congruence.
Qed.

(** X8.  The population and the collected series of a run of [n] completed
    ticks: the scheduler holds the bank, [num_households] households and
    [num_firms] firms, in that order, with the identities 0, 1, 2, ...;
    the model-level series has n + 1 entries, and the agent-level series
    n + 1 tables with one row per agent. *)
Theorem population_and_series (cfg : Config) (rng : NpRandom)
  (ticks : list (list nat)) (m : InflationModel) :
  run ticks (fst (InflationModel_init cfg rng)) = Some m ->
  let n := (1 + cfg_num_households cfg + cfg_num_firms cfg)%nat in
  kind <$> schedule m
  = population (cfg_num_households cfg) (cfg_num_firms cfg)
  /\ agent_id m <$> schedule m = seq 0 n
  /\ length (model_vars m) = S (length ticks)
  /\ length (agent_records m) = S (length ticks)
  /\ Forall (fun rows => av_unique_id <$> rows = seq 0 n) (agent_records m).
Proof.
  cbn zeta. intros Hrun. revert Hrun. set (n := (1 + cfg_num_households cfg + cfg_num_firms cfg)%nat).
  set (m0 := fst (InflationModel_init cfg rng)).
  assert (H0 : series_inv
                 (population (cfg_num_households cfg) (cfg_num_firms cfg))
                 n 1 m0).
  { unfold series_inv.
    destruct (init_schedule cfg rng) as (Hs & _ & _ & Hcb).
    destruct (populated_schedule cfg rng)
      as (hs & fs & Hsched & Hh & Hf & _).
    fold m0 in Hs, Hcb.
    assert (Hlh : length hs = cfg_num_households cfg)
      by (by rewrite <- (length_fmap h_unique_id), Hh, length_seq).
    assert (Hlf : length fs = cfg_num_firms cfg)
      by (by rewrite <- (length_fmap f_unique_id), Hf, length_seq).
    assert (Hids : agent_id m0 <$> schedule m0 = seq 0 n).
    { rewrite Hs, Hsched. cbn [fmap list_fmap agent_id]. rewrite Hcb.
      cbn [cb_unique_id CentralBank_init]. rewrite fmap_app.
      rewrite <- !list_fmap_compose.
      change (agent_id m0 ∘ AgHousehold) with h_unique_id.
      change (agent_id m0 ∘ AgFirm) with f_unique_id.
      rewrite Hh, Hf. subst n.
      replace (1 + cfg_num_households cfg + cfg_num_firms cfg)%nat
        with (S (cfg_num_households cfg + cfg_num_firms cfg)) by lia.
      cbn [seq]. f_equal. rewrite seq_app. f_equal. f_equal. lia. }
    split.
    { rewrite Hs, Hsched. cbn [fmap list_fmap kind]. rewrite fmap_app.
      rewrite kind_households, kind_firms, Hlh, Hlf. reflexivity. }
    split; [exact Hids|].
    subst m0. rewrite InflationModel_init_populated in *.
    destruct (populated_frame cfg rng) as (_ & _ & _ & _ & _ & Hmv & _).
    assert (Har : agent_records (populated cfg rng) = []).
    { unfold populated.
      match goal with
      | |- context [create_firms cfg ?k ?i (snd (create_households cfg ?k2 ?i2 ?r ?m0))
                                 (fst (create_households cfg ?k2 ?i2 ?r ?m0))] =>
          pose proof (create_households_frame cfg k2 i2 r m0) as H1;
          pose proof (create_firms_frame cfg k i
                        (snd (create_households cfg k2 i2 r m0))
                        (fst (create_households cfg k2 i2 r m0))) as H2;
          pose proof (construction_frame_trans _ _ _ H1 H2) as H
      end.
      by destruct H as (_ & _ & _ & _ & _ & _ & _ & _ & -> & _). }
    destruct (Qltb 0 (cfg_inflation_shock_size cfg));
      cbn [collect set_collected set_current_inflation model_vars
           agent_records schedule] in *;
      rewrite Hmv, Har; cbn [app length];
      (split; [reflexivity|]; split; [reflexivity|]);
      (constructor; [|constructor]);
      rewrite agent_reporters_ids; exact Hids. }
  intros Hrun.
  pose proof (run_series _ n ticks m0 m 1%nat H0 Hrun)
    as (Gk & Gid & Gmv & Gar & Grows).
  split; [exact Gk|]. split; [exact Gid|].
  split; [lia|]. split; [lia | exact Grows].
Qed.

Lemma population_and_series_witness :
  exists m,
    run [household_firm_bank; firm_bank_household] small_model = Some m
    /\ length (model_vars m) = 3%nat
    /\ agent_id m <$> schedule m = [0; 1; 2]%nat.
Proof.
  evar (m : InflationModel).
  assert (H : run [household_firm_bank; firm_bank_household]
                  (fst (InflationModel_init small_config
                          (draws_of [0.5; 50; 100; 0.5; 100]))) = Some m)
    by (subst m; vm_compute; reflexivity).
  pose proof (population_and_series small_config
                (draws_of [0.5; 50; 100; 0.5; 100])
                [household_firm_bank; firm_bank_household] m H)
    as (_ & Hid & Hmv & _).
  exists m. split; [exact H|]. split; [exact Hmv | exact Hid].
Defined.

(** ** Totals at the end of a tick *)

Lemma py_sum_Permutation (l l' : list Q) : l ≡ₚ l' -> py_sum l == py_sum l'.
Proof.
  induction 1 as [|x l l' _ IH|x y l|l1 l2 l3 _ IH1 _ IH2].
  - reflexivity.
  - rewrite !py_sum_cons, IH. reflexivity.
  - rewrite !py_sum_cons. ring.
  - by rewrite IH1.
Qed.

Lemma fmap_lookup_seq {A B : Type} (g : option A -> B) (h : A -> B)
  (l : list A) :
  (forall a, g (Some a) = h a) ->
  (fun i => g (l !! i)) <$> seq 0 (length l) = h <$> l.
Proof.
  intros Hg. apply list_eq. intros i.
  rewrite !list_lookup_fmap.
  destruct (decide (i < length l)%nat) as [Hi|Hi].
  - rewrite lookup_seq_lt by exact Hi. cbn.
    destruct (lookup_lt_is_Some_2 _ _ Hi) as [a Ha]. by rewrite Ha, Hg.
  - rewrite lookup_seq_ge by lia. by rewrite lookup_ge_None_2 by lia.
Qed.

Lemma run_agents_lookup_notin order : forall i m m',
  i ∉ order -> run_agents order m = Some m' ->
  schedule m' !! i = schedule m !! i.
Proof.
  induction order as [|j rest IH]; intros i m m' Hi H; cbn in H.
  - by injection H as <-.
  - bind_inv H. apply not_elem_of_cons in Hi as [Hne Hi].
    rewrite (IH _ _ _ Hi H). by eapply activate_lookup_other.
Qed.

(** What one activation adds to the totals, read off the entry it leaves
    in the scheduler. *)
Lemma activate_totals i m m' :
  activate i m = Some m' ->
  total_production m'
  == total_production m + from_option agent_production 0 (schedule m' !! i)
  /\ price_index_numerator m'
     == price_index_numerator m
        + from_option agent_sales 0 (schedule m' !! i).
Proof.
  unfold activate. destruct (schedule m !! i) as [[|h|f]|] eqn:Hi.
  - unfold CentralBank_step. intros H. bind_inv H. injection H as <-.
    cbn [set_central_bank schedule total_production price_index_numerator].
    rewrite Hi. cbn. split; ring.
  - cbn. intros [= <-].
    cbn [set_schedule schedule total_production price_index_numerator].
    rewrite list_lookup_insert_eq by (by eapply lookup_lt_Some).
    cbn. split; ring.
  - intros H. bind_inv H. destruct p as [f' m1]. injection H as <-.
    pose proof (Firm_step_spec _ _ _ _ E) as (_ & Ht & Hn & _).
    apply Firm_step_frame in E as (_ & Hs & _).
    cbn [set_schedule schedule total_production price_index_numerator].
    rewrite list_lookup_insert_eq
      by (rewrite Hs; by eapply lookup_lt_Some).
    cbn. rewrite Ht, Hn. split; reflexivity.
  - intros [= <-]. rewrite Hi. cbn. split; ring.
Qed.

Lemma run_agents_totals order : forall m m',
  NoDup order -> run_agents order m = Some m' ->
  total_production m'
  == total_production m
     + py_sum ((fun i => from_option agent_production 0 (schedule m' !! i))
               <$> order)
  /\ price_index_numerator m'
     == price_index_numerator m
        + py_sum ((fun i => from_option agent_sales 0 (schedule m' !! i))
                  <$> order).
Proof.
  induction order as [|i rest IH]; intros m m' Hnd H; cbn in H.
  - injection H as <-. cbn. unfold py_sum. cbn. split; ring.
  - bind_inv H. apply NoDup_cons in Hnd as [Hi Hnd].
    destruct (IH _ _ Hnd H) as [Ht Hn].
    destruct (activate_totals _ _ _ E) as [Ht1 Hn1].
    cbn [fmap list_fmap]. rewrite !py_sum_cons.
    rewrite (run_agents_lookup_notin _ _ _ _ Hi H).
    rewrite Ht, Hn, Ht1, Hn1. split; ring.
Qed.

(** X9.  At the end of a completed tick the total production is the sum of
    the firms' productions and the numerator of the price index is the
    sum of their sales (price times production): each firm was activated
    exactly once.  When something was produced, the price index is the
    production-weighted mean of the firms' prices. *)
Theorem tick_totals (picks : list nat) (m m' : InflationModel) :
  step picks m = Some m' ->
  total_production m' == py_sum (agent_production <$> schedule m')
  /\ price_index_numerator m' == py_sum (agent_sales <$> schedule m')
  /\ (0 < total_production m' ->
      price_index m' * py_sum (agent_production <$> schedule m')
      == py_sum (agent_sales <$> schedule m')).
Proof.
  intros H. apply step_phases in H as (m1 & m2 & Hrun & Hfin & ->).
  pose proof (run_agents_frame _ _ _ Hrun) as (_ & _ & _ & _ & _ & _ & _ & Hk).
  assert (Hlen : length (schedule m1) = length (schedule m)).
  { change (schedule m) with (schedule (reset_aggregates m)).
    by rewrite <- !(length_fmap kind), Hk. }
  assert (Hperm : activation_order picks (reset_aggregates m)
                  ≡ₚ seq 0 (length (schedule m1))).
  { unfold activation_order. rewrite Hlen. apply shuffle_Permutation. }
  assert (Hnd : NoDup (activation_order picks (reset_aggregates m))).
  { rewrite Hperm. apply NoDup_seq. }
  destruct (run_agents_totals _ _ _ Hnd Hrun) as [Ht Hn].
  change (total_production (reset_aggregates m)) with 0 in Ht.
  change (price_index_numerator (reset_aggregates m)) with 0 in Hn.
  rewrite (py_sum_Permutation _ _ (fmap_Permutation _ _ _ Hperm)) in Ht.
  rewrite (py_sum_Permutation _ _ (fmap_Permutation _ _ _ Hperm)) in Hn.
  rewrite (fmap_lookup_seq _ agent_production) in Ht by reflexivity.
  rewrite (fmap_lookup_seq _ agent_sales) in Hn by reflexivity.
  pose proof (finalize_frame _ _ Hfin) as (_ & Hs2 & _ & Ht2 & Hn2 & _).
  pose proof (finalize_spec _ _ Hfin) as (_ & _ & _ & Hpi2 & _).
  cbn [collect set_collected schedule total_production
       price_index_numerator price_index].
  rewrite Hs2, Ht2, Hn2, Hpi2.
  assert (Ht' : total_production m1
                == py_sum (agent_production <$> schedule m1))
    by (rewrite Ht; ring).
  assert (Hn' : price_index_numerator m1
                == py_sum (agent_sales <$> schedule m1))
    by (rewrite Hn; ring).
  split; [exact Ht'|]. split; [exact Hn'|].
  intros Hpos. rewrite (proj2 (Qltb_true _ _) Hpos).
  rewrite <- Ht', <- Hn'. field. lra.
Qed.

Lemma tick_totals_witness :
  exists m',
    step household_firm_bank small_model = Some m'
    /\ total_production m' == py_sum (agent_production <$> schedule m')
    /\ total_production m' == 95.68.
Proof.
  evar (m' : InflationModel).
  assert (H : step household_firm_bank small_model = Some m')
    by (subst m'; vm_compute; reflexivity).
  exists m'. split; [exact H|].
  split; [exact (proj1 (tick_totals household_firm_bank small_model m' H))|].
  vm_compute. reflexivity.
Defined.

(** ** Capacity *)

Lemma py_sum_app (l1 l2 : list Q) : py_sum (l1 ++ l2) == py_sum l1 + py_sum l2.
Proof.
  induction l1 as [|x l1 IH]; cbn [app].
  - unfold py_sum at 2. cbn. ring.
  - rewrite !py_sum_cons, IH. ring.
Qed.

Lemma py_sum_zeros (l : list Q) : Forall (fun x => x = 0) l -> py_sum l == 0.
Proof.
  induction 1 as [|x l -> _ IH]; [reflexivity|].
  rewrite py_sum_cons, IH. ring.
Qed.

Lemma activate_capacities i m m' :
  activate i m = Some m' ->
  agent_capacity <$> schedule m' = agent_capacity <$> schedule m.
Proof.
  unfold activate. destruct (schedule m !! i) as [[|h|f]|] eqn:Hi.
  - unfold CentralBank_step. intros H. bind_inv H. by injection H as <-.
  - cbn. intros [= <-]. cbn [set_schedule schedule].
    by apply fmap_insert_same with (a := AgHousehold h).
  - intros H. bind_inv H. destruct p as [f' m1]. injection H as <-.
    pose proof (Firm_step_spec _ _ _ _ E) as (Hc & _).
    apply Firm_step_frame in E as (_ & Hs & _).
    cbn [set_schedule schedule]. rewrite Hs.
    by apply fmap_insert_same with (a := AgFirm f).
  - by intros [= <-].
Qed.

Lemma run_agents_capacities order : forall m m',
  run_agents order m = Some m' ->
  agent_capacity <$> schedule m' = agent_capacity <$> schedule m.
Proof.
  induction order as [|i rest IH]; intros m m' H; cbn in H.
  - by injection H as <-.
  - bind_inv H. rewrite (IH _ _ H). by eapply activate_capacities.
Qed.

Lemma step_capacities picks m m' :
  step picks m = Some m' ->
  agent_capacity <$> schedule m' = agent_capacity <$> schedule m
  /\ total_production_capacity m' = total_production_capacity m.
Proof.
  intros H. apply step_phases in H as (m1 & m2 & Hrun & Hfin & ->).
  pose proof (run_agents_capacities _ _ _ Hrun) as Hc.
  pose proof (run_agents_frame _ _ _ Hrun) as (_ & _ & _ & Hcap & _).
  assert (Hfin' : schedule m2 = schedule m1
                  /\ total_production_capacity m2
                     = total_production_capacity m1).
  { unfold finalize in Hfin. bind_inv Hfin. injection Hfin as <-.
    by destruct (Qltb 0 _). }
  destruct Hfin' as [Hs2 Hcap2].
  cbn [collect set_collected schedule total_production_capacity].
  rewrite Hs2, Hcap2. by split.
Qed.

(** X10.  Throughout a run, total_production_capacity is the sum of the
    capacities of the registered firms: the constructor totals them and
    no step changes a capacity or the total. *)
Theorem total_capacity_is_sum (cfg : Config) (rng : NpRandom)
  (ticks : list (list nat)) (m : InflationModel) :
  run ticks (fst (InflationModel_init cfg rng)) = Some m ->
  total_production_capacity m == py_sum (agent_capacity <$> schedule m).
Proof.
  set (m0 := fst (InflationModel_init cfg rng)).
  assert (H0 : total_production_capacity m0
               == py_sum (agent_capacity <$> schedule m0)).
  { destruct (init_schedule cfg rng) as (Hs & _ & Hcap & _).
    destruct (populated_schedule cfg rng)
      as (hs & fs & Hsched & _ & _ & _ & Hsum & _).
    fold m0 in Hs, Hcap. rewrite Hcap, Hs, Hsched, Hsum.
    cbn [fmap list_fmap agent_capacity]. rewrite py_sum_cons, fmap_app.
    rewrite py_sum_app, <- !list_fmap_compose.
    rewrite (py_sum_zeros ((agent_capacity ∘ AgHousehold) <$> hs)).
    - change (agent_capacity ∘ AgFirm) with production_capacity. ring.
    - apply Forall_fmap, Forall_forall. by intros. }
  clearbody m0. revert m0 H0.
  induction ticks as [|picks rest IH]; intros m0 H0 Hrun; cbn [run] in Hrun.
  - by injection Hrun as <-.
  - bind_inv Hrun. apply (IH i); [|exact Hrun].
    destruct (step_capacities _ _ _ E) as [-> ->]. exact H0.
Qed.

Lemma total_capacity_is_sum_witness :
  exists m,
    run [household_firm_bank] small_model = Some m
    /\ total_production_capacity m == py_sum (agent_capacity <$> schedule m)
    /\ total_production_capacity m == 130.
Proof.
  evar (m : InflationModel).
  assert (H : run [household_firm_bank]
                  (fst (InflationModel_init small_config
                          (draws_of [0.5; 50; 100; 0.5; 100]))) = Some m)
    by (subst m; vm_compute; reflexivity).
  exists m. split; [exact H|]. split.
  - exact (total_capacity_is_sum small_config _ [household_firm_bank] m H).
  - vm_compute. reflexivity.
Defined.

(** ** Expectations at construction *)







(** ** The search for the step at which inflation has stabilised *)

Lemma first_stable_seq near series len : forall a,
  match first_stable near series (seq a len) with
  | Some k =>
      exists step,
        (a <= step < a + len)%nat /\ k = (step - 5)%nat
        /\ near (iloc series (step - 5) step) = true
        /\ forall s, (a <= s < step)%nat ->
             near (iloc series (s - 5) s) = false
  | None =>
      forall s, (a <= s < a + len)%nat ->
        near (iloc series (s - 5) s) = false
  end.
Proof.
  induction len as [|len IH]; intros a; cbn [seq first_stable].
  - intros s Hs. lia.
  - destruct (near (iloc series (a - 5) a)) eqn:Ha.
    + exists a. split; [lia|]. split; [reflexivity|]. split; [exact Ha|].
      intros s Hs. lia.
    + specialize (IH (S a)).
      destruct (first_stable near series (seq (S a) len)) as [k|].
      * destruct IH as (step & Hstep & -> & Hnear & Hmin).
        exists step. split; [lia|]. split; [reflexivity|].
        split; [exact Hnear|]. intros s Hs.
        destruct (decide (s = a)) as [->|Hne]; [exact Ha|].
        apply Hmin. lia.
      * intros s Hs. destruct (decide (s = a)) as [->|Hne]; [exact Ha|].
        apply IH. lia.
Qed.

Lemma gaps_near_true w :
  gaps_near w = true <-> Forall (fun g => Qabs g < tolerance) w.
Proof.
  unfold gaps_near. induction w as [|g w IH]; cbn [forallb].
  - split; [constructor | reflexivity].
  - rewrite andb_true_iff, IH, Qltb_true, Forall_cons. reflexivity.
Qed.

Lemma gaps_near_false w :
  gaps_near w = false <-> Exists (fun g => tolerance <= Qabs g) w.
Proof.
  unfold gaps_near. induction w as [|g w IH]; cbn [forallb].
  - split; [discriminate | by intros ?%Exists_nil].
  - rewrite andb_false_iff, IH, Qltb_false, Exists_cons. reflexivity.
Qed.

(** X12.  [steps_to_target] of [app.py], characterised: it yields the first [k]
    such that the five values from index [k] are all within the tolerance
    of half a percentage point, among the windows that end before the
    last value of the series; it yields nothing when no such window
    exists, in particular for a series of five values or fewer. *)
Theorem steps_to_target_spec (gaps : list Q) :
  match steps_to_target gaps with
  | Some k =>
      (k + 5 < length gaps)%nat
      /\ Forall (fun g => Qabs g < tolerance) (iloc gaps k (k + 5))
      /\ forall k', (k' < k)%nat ->
           Exists (fun g => tolerance <= Qabs g) (iloc gaps k' (k' + 5))
  | None =>
      forall k, (k + 5 < length gaps)%nat ->
        Exists (fun g => tolerance <= Qabs g) (iloc gaps k (k + 5))
  end.
Proof.
  unfold steps_to_target, py_range.
  pose proof (first_stable_seq gaps_near gaps
                (length gaps - Nat.min 5 (length gaps))
                (Nat.min 5 (length gaps))) as H.
  destruct (first_stable _ _ _) as [k|].
  - destruct H as (step & Hstep & -> & Hnear & Hmin).
    assert (H5 : (5 <= step)%nat) by lia.
    replace (step - 5 + 5)%nat with step by lia.
    split; [lia|]. split; [by apply gaps_near_true|].
    intros k' Hk'. apply gaps_near_false.
    specialize (Hmin (k' + 5)%nat ltac:(lia)).
    by replace (k' + 5 - 5)%nat with k' in Hmin by lia.
  - intros k Hk. apply gaps_near_false.
    specialize (H (k + 5)%nat ltac:(lia)).
    by replace (k + 5 - 5)%nat with k in H by lia.
Qed.

Lemma steps_to_target_spec_witness :
  let gaps := [0.05; 0.02; 0.004; 0.003; -0.002; 0.001; 0.001; 0.0005] in
  steps_to_target gaps = Some 2%nat
  /\ Forall (fun g => Qabs g < tolerance) (iloc gaps 2 7)
  /\ Exists (fun g => tolerance <= Qabs g) (iloc gaps 1 6).
Proof.
  cbn zeta.
  pose proof (steps_to_target_spec
                [0.05; 0.02; 0.004; 0.003; -0.002; 0.001; 0.001; 0.0005])
    as H.
  assert (E : steps_to_target
                [0.05; 0.02; 0.004; 0.003; -0.002; 0.001; 0.001; 0.0005]
              = Some 2%nat) by (vm_compute; reflexivity).
  rewrite E in H. destruct H as (_ & Hw & Hmin).
  split; [exact E|]. split; [exact Hw|]. apply (Hmin 1%nat). lia.
Defined.

Lemma first_stable_ext near1 near2 (s1 s2 : list Q) steps :
  (forall step, step ∈ steps ->
     near1 (iloc s1 (step - 5) step) = near2 (iloc s2 (step - 5) step)) ->
  first_stable near1 s1 steps = first_stable near2 s2 steps.
Proof.
  induction steps as [|step rest IH]; intros H; cbn [first_stable];
    [reflexivity|].
  rewrite (H step) by (apply elem_of_cons; by left).
  rewrite IH; [reflexivity|]. intros s Hs. apply H, elem_of_cons. by right.
Qed.

(** X13.  The last value of the series is never examined: replacing it does
    not change the result. *)
Theorem steps_to_target_ignores_last (gaps : list Q) (x y : Q) :
  steps_to_target (gaps ++ [x]) = steps_to_target (gaps ++ [y]).
Proof.
  unfold steps_to_target. rewrite !length_app. cbn [length].
  apply first_stable_ext. intros step Hstep.
  unfold py_range in Hstep. apply elem_of_seq in Hstep.
  unfold iloc. f_equal.
  destruct (decide (5 <= step)%nat) as [H5|H5].
  - rewrite !drop_app_le by lia. rewrite !take_app_le; [reflexivity|..];
      rewrite length_drop; lia.
  - lia.
Qed.





(** ** Expectations along a run *)












End MacroExtras.

Module SchellingExtras.
Import Schelling SchellingTheory.

(** ** What a move changes *)

Lemma best_candidate_elem a m candidates : forall best_pos best_eval p,
  best_candidate a m candidates best_pos best_eval = Some (Some p) ->
  p ∈ candidates \/ best_pos = Some p.
Proof.
  induction candidates as [|c rest IH]; intros bp be p H;
    cbn [best_candidate] in H.
  - injection H as ->. by right.
  - destruct (evaluate_location a m c) as [ev|] eqn:E;
      cbn [mbind option_bind] in H; [|discriminate].
    destruct (score_gt ev be).
    + apply IH in H as [H|H].
      * left. apply elem_of_cons. by right.
      * injection H as ->. left. apply elem_of_cons. by left.
    + apply IH in H as [H|H]; [|by right].
      left. apply elem_of_cons. by right.
Qed.

(** The cases of [move]: the agent is counted happy and stays, or it is
    not counted and either stays or is relocated to a cell that was
    empty. *)
Lemma move_cases picks i m m' :
  move picks i m = Some m' ->
  m' = set_happy (S (happy m)) m
  \/ m' = m
  \/ exists a p,
       agents m !! i = Some a /\ p ∈ empties m
       /\ m' = set_agents (<[i := relocate a p]> (agents m)) m.
Proof.
  unfold move. destruct (agents m !! i) as [a|] eqn:Hi.
  - destruct (is_satisfied a _).
    + intros [= <-]. by left.
    + intros H.
      destruct (best_candidate a m _ None NegInf) as [[p|]|] eqn:E;
        cbn [mbind option_bind] in H; [| |discriminate].
      * injection H as <-. right. right. exists a, p.
        split; [reflexivity|]. split; [|reflexivity].
        apply best_candidate_elem in E as [E|E]; [|discriminate].
        by eapply draw_from_elem_of.
      * injection H as <-. right. by left.
  - intros [= <-]. right. by left.
Qed.

Lemma occupied_false m p :
  occupied m p = false <-> p ∉ pos <$> agents m.
Proof.
  unfold occupied. induction (agents m) as [|a l IH]; cbn [existsb fmap list_fmap].
  - split; [intros _ H; by apply elem_of_nil in H | reflexivity].
  - rewrite orb_false_iff, IH, not_elem_of_cons.
    assert (Heq : pos_eqb (pos a) p = false <-> p <> pos a).
    { unfold pos_eqb. destruct (pos a) as [x y], p as [x' y']. cbn.
      rewrite andb_false_iff, !Nat.eqb_neq. split.
      - intros [H|H] [= -> ->]; by apply H.
      - intros H. destruct (decide (x = x')) as [->|]; [|by left].
        right. intros ->. by apply H. }
    by rewrite Heq.
Qed.

Lemma elem_of_empties m p :
  p ∈ empties m <-> p ∈ coords (width m) (height m) /\ p ∉ pos <$> agents m.
Proof.
  unfold empties. rewrite list_elem_of_filter, occupied_false. tauto.
Qed.

Lemma NoDup_insert_fresh {A : Type} (l : list A) i x :
  NoDup l -> x ∉ l -> NoDup (<[i:=x]> l).
Proof.
  intros Hnd Hx. destruct (decide (i < length l)%nat) as [Hi|Hi].
  - rewrite insert_take_drop by exact Hi.
    destruct (lookup_lt_is_Some_2 _ _ Hi) as [y Hy].
    rewrite <- (take_drop_middle l i y Hy) in Hnd, Hx.
    apply NoDup_app in Hnd as (H1 & H2 & H3).
    apply NoDup_cons in H3 as [_ H3].
    apply not_elem_of_app in Hx as [Hx1 Hx2].
    apply not_elem_of_cons in Hx2 as [_ Hx2].
    apply NoDup_app. split; [exact H1|]. split.
    + intros z Hz [->|Hz']%elem_of_cons; [done|].
      apply (H2 z Hz). apply elem_of_cons. by right.
    + apply NoDup_cons. by split.
  - by rewrite list_insert_ge by lia.
Qed.

(** ** One agent per cell *)

Lemma move_grid_ok picks i m m' :
  move picks i m = Some m' -> grid_ok m -> grid_ok m'.
Proof.
  intros H [Hnd Hin].
  apply move_cases in H as [->|[->|(a & p & Hi & Hp & ->)]];
    [by split | by split |].
  apply elem_of_empties in Hp as [Hp1 Hp2].
  unfold grid_ok. cbn [set_agents agents width height]. split.
  - rewrite list_fmap_insert. cbn [relocate pos].
    by apply NoDup_insert_fresh.
  - by apply Forall_insert.
Qed.

Lemma run_moves_grid_ok sample_picks order : forall m m',
  run_moves sample_picks order m = Some m' -> grid_ok m -> grid_ok m'.
Proof.
  induction order as [|i rest IH]; intros m m' H Hok; cbn [run_moves] in H.
  - by injection H as <-.
  - bind_inv H. eapply IH; [exact H|]. by eapply move_grid_ok.
Qed.

Lemma step_grid_ok order_picks sample_picks m m' :
  step order_picks sample_picks m = Some m' -> grid_ok m -> grid_ok m'.
Proof.
  unfold step. intros H Hok. bind_inv H. injection H as <-.
  apply (run_moves_grid_ok _ _ _ _ E). exact Hok.
Qed.

Lemma NoDup_coords w h : NoDup (coords w h).
Proof.
  unfold coords. apply NoDup_bind.
  - intros x1 x2 [a b] _ _ H1 H2.
    apply list_elem_of_fmap in H1 as (y1 & [= -> ->] & _).
    by apply list_elem_of_fmap in H2 as (y2 & [= -> ->] & _).
  - intros x _. apply NoDup_fmap_2; [|apply NoDup_seq].
    by intros y1 y2 [= ->].
  - apply NoDup_seq.
Qed.

Lemma place_agents_frame cells : forall seeded g m m' g',
  place_agents cells seeded g m = Some (m', g') ->
  width m' = width m /\ height m' = height m
  /\ exists new,
       agents m' = agents m ++ new
       /\ pos <$> new `sublist_of` cells.
Proof.
  induction cells as [|p rest IH]; intros seeded g m m' g' H;
    cbn [place_agents np_next] in H.
  - injection H as <- _. split; [reflexivity|]. split; [reflexivity|].
    exists []. by rewrite app_nil_r.
  - destruct (Qltb _ (density m)).
    + bind_inv H. destruct p0 as [a g1].
      assert (Hpos : pos a = p).
      { unfold SchellingAgent_init in E. cbn [np_next] in E. bind_inv E.
        by injection E as <- _. }
      apply IH in H as (Hw & Hh & new & Hag & Hsub).
      cbn [set_agents width height agents] in *.
      split; [exact Hw|]. split; [exact Hh|].
      exists (a :: new). rewrite Hag, <- app_assoc. split; [reflexivity|].
      cbn [fmap list_fmap]. rewrite Hpos. by constructor.
    + apply IH in H as (Hw & Hh & new & Hag & Hsub).
      split; [exact Hw|]. split; [exact Hh|].
      exists new. split; [exact Hag|]. by constructor.
Qed.

Lemma SchellingModel_init_grid_ok cfg g m g' :
  SchellingModel_init cfg g = Some (m, g') -> grid_ok m.
Proof.
  unfold SchellingModel_init. intros H. bind_inv H. destruct p as [m1 g1].
  injection H as <- _.
  apply place_agents_frame in E as (Hw & Hh & new & Hag & Hsub).
  cbn [agents width height app] in *.
  unfold grid_ok. cbn [collect set_model_vars agents width height].
  rewrite Hag, Hw, Hh. split.
  - eapply sublist_NoDup; [apply NoDup_coords | exact Hsub].
  - apply Forall_forall. intros a Ha.
    eapply elem_of_sublist; [|exact Hsub].
    apply list_elem_of_fmap. by exists a.
Qed.

(** X16.  In every state a run reaches from a constructed model, every agent
    stands on a cell of the grid and no two agents share a cell: an agent
    only ever moves to a cell that is empty. *)
Theorem one_agent_per_cell (cfg : Config) (g g' : Globals)
  (m0 m : SchellingModel) :
  SchellingModel_init cfg g = Some (m0, g') ->
  runs_to m0 m ->
  NoDup (pos <$> agents m)
  /\ Forall (fun a => (fst (pos a) < width m)%nat
                      /\ (snd (pos a) < height m)%nat) (agents m).
Proof.
  intros Hinit Hrun.
  assert (Hok : grid_ok m).
  { induction Hrun as [|m1 m2 op sp _ IH Hstep].
    - by eapply SchellingModel_init_grid_ok.
    - by eapply step_grid_ok. }
  destruct Hok as [Hnd Hin]. split; [exact Hnd|].
  eapply Forall_impl; [exact Hin|]. intros a Ha. unfold coords in Ha.
  apply list_elem_of_bind in Ha as (x & Hy & Hx).
  apply list_elem_of_fmap in Hy as (y & Hp & Hy).
  apply elem_of_seq in Hx, Hy. rewrite Hp. cbn. lia.
Qed.

Lemma one_agent_per_cell_witness :
  exists m0 g' m,
    SchellingModel_init pair_config high_thresholds = Some (m0, g')
    /\ step [] first_cells m0 = Some m
    /\ pos <$> agents m0 = [(0, 0); (0, 1)]%nat
    /\ pos <$> agents m = [(0, 2); (0, 0)]%nat
    /\ NoDup (pos <$> agents m).
Proof.
  evar (m0 : SchellingModel). evar (g' : Globals). evar (m : SchellingModel).
  assert (H0 : SchellingModel_init pair_config high_thresholds
               = Some (m0, g'))
    by (subst m0 g'; vm_compute; reflexivity).
  assert (H1 : step [] first_cells m0 = Some m)
    by (subst m; vm_compute; reflexivity).
  exists m0, g', m. split; [exact H0|]. split; [exact H1|].
  split; [reflexivity|]. split; [reflexivity|].
  exact (proj1 (one_agent_per_cell pair_config high_thresholds g' m0 m H0
                  (runs_to_step m0 m0 m [] first_cells (runs_to_refl m0) H1))).
Defined.

(** ** The happy count and its share *)

Lemma move_happy picks i m m' :
  move picks i m = Some m' ->
  length (agents m') = length (agents m)
  /\ (happy m <= happy m' <= S (happy m))%nat
  /\ model_vars m' = model_vars m.
Proof.
  intros H.
  apply move_cases in H as [->|[->|(a & p & Hi & Hp & ->)]]; cbn.
  - repeat split; lia.
  - repeat split; lia.
  - rewrite length_insert. repeat split; lia.
Qed.

Lemma run_moves_happy sample_picks order : forall m m',
  run_moves sample_picks order m = Some m' ->
  length (agents m') = length (agents m)
  /\ (happy m <= happy m' <= happy m + length order)%nat
  /\ model_vars m' = model_vars m.
Proof.
  induction order as [|i rest IH]; intros m m' H; cbn [run_moves] in H.
  - injection H as <-. cbn. repeat split; lia.
  - bind_inv H.
    destruct (move_happy _ _ _ _ E) as (L1 & H1 & M1).
    destruct (IH _ _ H) as (L2 & H2 & M2). cbn [length].
    split; [congruence|]. split; [lia | congruence].
Qed.

(** X17.  After a completed step no agent was created or removed, the happy
    count is at most the number of agents, the snapshot appended to the
    series holds the count and its share, which lies between 0 and 100,
    and the running flag is off exactly when every agent is happy. *)
Theorem happy_bounded (order_picks : list nat)
  (sample_picks : nat -> list nat) (m m' : SchellingModel) :
  step order_picks sample_picks m = Some m' ->
  length (agents m') = length (agents m)
  /\ (happy m' <= length (agents m'))%nat
  /\ model_vars m' = model_vars m ++ [(happy m', share_happy m')]
  /\ 0 <= share_happy m' /\ share_happy m' <= 100
  /\ (running m' = false <-> happy m' = length (agents m')).
Proof.
  unfold step. intros H.
  destruct (run_moves sample_picks _ (set_happy 0 m)) as [s|] eqn:E;
    cbn [mbind option_bind] in H; [|discriminate].
  injection H as <-.
  destruct (run_moves_happy _ _ _ _ E) as (Hl & Hh & Hmv).
  destruct (activation_order_spec order_picks (set_happy 0 m)) as [Hlen _].
  rewrite Hlen in Hh.
  cbn [set_happy happy agents model_vars] in Hl, Hh, Hmv.
  cbn [set_running collect set_model_vars agents happy model_vars running].
  assert (Hle : (happy s <= length (agents s))%nat) by lia.
  split; [exact Hl|]. split; [exact Hle|].
  split; [by rewrite Hmv|].
  assert (Hshare : 0 <= share_happy s /\ share_happy s <= 100).
  { unfold share_happy. destruct (Nat.ltb_spec 0 (length (agents s))) as [Hpos|];
      [|split; lra].
    set (h := inject_Z (Z.of_nat (happy s))).
    set (n := inject_Z (Z.of_nat (length (agents s)))).
    assert (Hn : 0 < n).
    { subst n. change 0 with (inject_Z 0). rewrite <- Zlt_Qlt. lia. }
    assert (Hh0 : 0 <= h).
    { subst h. change 0 with (inject_Z 0). rewrite <- Zle_Qle. lia. }
    assert (Hhn : h <= n).
    { subst h n. rewrite <- Zle_Qle. lia. }
    assert (Hq : 0 <= h / n /\ h / n <= 1).
    { split.
      - apply Qle_shift_div_l; [exact Hn | lra].
      - apply Qle_shift_div_r; [exact Hn | lra]. }
    split; nra. }
  split; [apply Hshare|]. split; [apply Hshare|].
  rewrite Nat.ltb_ge. lia.
Qed.

Lemma happy_bounded_witness :
  exists m0 g' m,
    SchellingModel_init pair_config high_thresholds_alike = Some (m0, g')
    /\ step [] first_cells m0 = Some m
    /\ happy m = 2%nat
    /\ share_happy m == 100
    /\ running m = false.
Proof.
  evar (m0 : SchellingModel). evar (g' : Globals). evar (m : SchellingModel).
  assert (H0 : SchellingModel_init pair_config high_thresholds_alike
               = Some (m0, g'))
    by (subst m0 g'; vm_compute; reflexivity).
  assert (H1 : step [] first_cells m0 = Some m)
    by (subst m; vm_compute; reflexivity).
  pose proof (happy_bounded [] first_cells m0 m H1)
    as (_ & _ & _ & _ & _ & Hrun).
  exists m0, g', m. split; [exact H0|]. split; [exact H1|].
  split; [reflexivity|]. split; [vm_compute; reflexivity|].
  apply Hrun. reflexivity.
Defined.

(** ** An empty grid *)

Lemma place_agents_none cells : forall seeded g m,
  density m <= 0 ->
  (forall n, 0 <= np_draws seeded n) ->
  place_agents cells seeded g m = Some (m, g).
Proof.
  induction cells as [|p rest IH]; intros seeded g m Hd Hs;
    cbn [place_agents np_next].
  - reflexivity.
  - assert (Hno : Qltb (np_draws seeded (np_cursor seeded)) (density m)
                  = false).
    { apply Qltb_false. specialize (Hs (np_cursor seeded)). lra. }
    rewrite Hno. apply IH; [exact Hd|]. exact Hs.
Qed.

(** X18.  With a density of 0 (or less) the constructor places no agent: the
    first snapshot records a happy count of 0 and a share of 0 rather
    than dividing by the number of agents, and a step leaves the count
    and the share at 0 and clears the running flag. *)
Theorem empty_grid (cfg : Config) (g : Globals)
  (order_picks : list nat) (sample_picks : nat -> list nat) :
  cfg_density cfg <= 0 ->
  (forall n, 0 <= cfg_seed cfg n) ->
  exists m m',
    SchellingModel_init cfg g = Some (m, g)
    /\ agents m = []
    /\ model_vars m = [(0%nat, 0)]
    /\ step order_picks sample_picks m = Some m'
    /\ model_vars m' = [(0%nat, 0); (0%nat, 0)]
    /\ running m' = false.
Proof.
  intros Hd Hs. unfold SchellingModel_init.
  match goal with
  | |- context [place_agents ?cells ?seeded g ?m0] =>
      rewrite (place_agents_none cells seeded g m0 Hd Hs)
  end.
  cbn [mbind option_bind]. eexists _, _.
  split; [reflexivity|]. split; [reflexivity|]. split; [reflexivity|].
  split; [reflexivity|]. split; reflexivity.
Qed.

Lemma empty_grid_witness :
  exists m m',
    SchellingModel_init empty_config zero_thresholds
    = Some (m, zero_thresholds)
    /\ agents m = []
    /\ step [] first_cells m = Some m'
    /\ running m' = false.
Proof.
  destruct (empty_grid empty_config zero_thresholds [] first_cells)
    as (m & m' & H0 & Ha & _ & H1 & _ & Hr).
  - vm_compute. discriminate.
  - intros n. vm_compute. discriminate.
  - exists m, m'. split; [exact H0|]. split; [exact Ha|].
    split; [exact H1 | exact Hr].
Defined.

(** ** A full grid *)





(** ** Steps never raise *)

Lemma evaluate_location_total a m p :
  0 < type a -> exists s, evaluate_location a m p = Some s.
Proof.
  intros Ht. unfold evaluate_location.
  destruct (get_neighbors m p); [by eexists|].
  rewrite py_div_nonzero by lra. by eexists.
Qed.

Lemma best_candidate_total a m candidates : forall best_pos best_eval,
  0 < type a ->
  exists r, best_candidate a m candidates best_pos best_eval = Some r.
Proof.
  induction candidates as [|c rest IH]; intros bp be Ht;
    cbn [best_candidate]; [by eexists|].
  destruct (evaluate_location_total a m c Ht) as [s ->].
  cbn [mbind option_bind]. destruct (score_gt s be); by apply IH.
Qed.

Lemma relocate_class_ok a p : class_ok a -> class_ok (relocate a p).
Proof. intros H. exact H. Qed.

Lemma move_total picks i m :
  Forall class_ok (agents m) ->
  exists m', move picks i m = Some m' /\ Forall class_ok (agents m').
Proof.
  intros Hok. unfold move. destruct (agents m !! i) as [a|] eqn:Hi.
  - pose proof (Forall_lookup_1 _ _ _ _ Hok Hi) as Ha.
    destruct (is_satisfied a _); [by eexists|].
    destruct (best_candidate_total a m
                (draw_from picks (empties m)
                   (Nat.min (length (empties m)) 10)) None NegInf
                (proj1 Ha)) as [[p|] ->]; cbn [mbind option_bind].
    + eexists. split; [reflexivity|]. cbn [set_agents agents].
      apply Forall_insert; [exact Hok | by apply relocate_class_ok].
    + by eexists.
  - by eexists.
Qed.

Lemma run_moves_total sample_picks order : forall m,
  Forall class_ok (agents m) ->
  exists m', run_moves sample_picks order m = Some m'
             /\ Forall class_ok (agents m').
Proof.
  induction order as [|i rest IH]; intros m Hok; cbn [run_moves].
  - by eexists.
  - destruct (move_total (sample_picks i) i m Hok) as (m1 & -> & Hok1).
    cbn [mbind option_bind]. by apply IH.
Qed.

Lemma step_total order_picks sample_picks m :
  Forall class_ok (agents m) ->
  exists m', step order_picks sample_picks m = Some m'
             /\ Forall class_ok (agents m').
Proof.
  intros Hok. unfold step.
  destruct (run_moves_total sample_picks
              (activation_order order_picks (set_happy 0 m))
              (set_happy 0 m) Hok) as (m1 & -> & Hok1).
  cbn [mbind option_bind]. eexists. split; [reflexivity|]. exact Hok1.
Qed.

Lemma run_total ticks : forall m,
  Forall class_ok (agents m) ->
  exists m', Schelling.run ticks m = Some m' /\ Forall class_ok (agents m').
Proof.
  induction ticks as [|[op sp] rest IH]; intros m Hok; cbn [Schelling.run].
  - by eexists.
  - destruct (step_total op sp m Hok) as (m1 & -> & Hok1).
    cbn [mbind option_bind]. by apply IH.
Qed.

Lemma SchellingAgent_init_total uid p g :
  (forall n, 0 < np_draws (g_numpy g) n) ->
  exists a g',
    SchellingAgent_init uid p g = Some (a, g')
    /\ class_ok a
    /\ np_draws (g_numpy g') = np_draws (g_numpy g).
Proof.
  intros Hpos. unfold SchellingAgent_init. cbn [np_next].
  set (s := np_draws (g_numpy g) (np_cursor (g_numpy g))).
  assert (Hs : 0 < s) by apply Hpos.
  rewrite py_div_nonzero by lra. cbn [mbind option_bind].
  eexists _, _. split; [reflexivity|]. split; [|reflexivity].
  unfold class_ok. cbn [type income_class].
  split; [apply Qlt_shift_div_l; lra|].
  split; [apply Qlt_shift_div_r; lra | reflexivity].
Qed.

Lemma place_agents_total cells : forall seeded g m,
  (forall n, 0 < np_draws (g_numpy g) n) ->
  Forall class_ok (agents m) ->
  exists m' g',
    place_agents cells seeded g m = Some (m', g')
    /\ Forall class_ok (agents m').
Proof.
  induction cells as [|p rest IH]; intros seeded g m Hpos Hok;
    cbn [place_agents np_next].
  - by eexists _, _.
  - destruct (Qltb _ (density m)).
    + destruct (SchellingAgent_init_total (S (length (agents m))) p g Hpos)
        as (a & g1 & -> & Ha & Hg1).
      cbn [mbind option_bind]. apply IH.
      * intros n. rewrite Hg1. apply Hpos.
      * cbn [set_agents agents]. apply Forall_app. split; [exact Hok|].
        constructor; [exact Ha | constructor].
    + by apply IH.
Qed.

(** X20.  When the log-normal draws are positive (as log-normal draws are),
    the constructor and every step of a run complete without raising,
    and every agent's income class stays the one it was given, strictly
    between 0 and 1. *)
Theorem run_never_raises (cfg : Config) (g : Globals)
  (ticks : list (list nat * (nat -> list nat))) :
  (forall n, 0 < np_draws (g_numpy g) n) ->
  exists m0 g' m,
    SchellingModel_init cfg g = Some (m0, g')
    /\ Schelling.run ticks m0 = Some m
    /\ Forall (fun a => 0 < type a /\ type a < 1 /\ income_class a = type a)
              (agents m).
Proof.
  intros Hpos. unfold SchellingModel_init.
  match goal with
  | |- context [place_agents ?cells ?seeded g ?m0] =>
      destruct (place_agents_total cells seeded g m0 Hpos)
        as (m1 & g1 & -> & Hok); [constructor|]
  end.
  cbn [mbind option_bind].
  destruct (run_total ticks (collect m1) Hok) as (m & Hrun & Hm).
  exists (collect m1), g1, m. split; [reflexivity|].
  split; [exact Hrun | exact Hm].
Qed.

Lemma run_never_raises_witness :
  exists m0 g' m,
    SchellingModel_init lone_config
      (mkGlobals (mkNpRandom (fun _ => 1) 0) (draws_of [0])) = Some (m0, g')
    /\ Schelling.run [([], first_cells); ([], first_cells)] m0 = Some m.
Proof.
  destruct (run_never_raises lone_config
              (mkGlobals (mkNpRandom (fun _ => 1) 0) (draws_of [0]))
              [([], first_cells); ([], first_cells)])
    as (m0 & g' & m & H0 & H1 & _).
  - intros n. reflexivity.
  - by exists m0, g', m.
Defined.

(** ** What a run leaves to an agent *)

Lemma unchanged_or_moved_trans a b c :
  unchanged_or_moved a b -> unchanged_or_moved b c -> unchanged_or_moved a c.
Proof.
  unfold unchanged_or_moved. intros [->|H1] [->|H2]; auto. right. lia.
Qed.

Lemma Forall2_unchanged_trans l1 : forall l2 l3,
  Forall2 unchanged_or_moved l1 l2 -> Forall2 unchanged_or_moved l2 l3 ->
  Forall2 unchanged_or_moved l1 l3.
Proof.
  induction l1 as [|a l1 IH]; intros l2 l3 H12 H23.
  - apply Forall2_nil_inv_l in H12 as ->.
    by apply Forall2_nil_inv_l in H23 as ->.
  - apply Forall2_cons_inv_l in H12 as (b & l2' & Hab & H12 & ->).
    apply Forall2_cons_inv_l in H23 as (c & l3' & Hbc & H23 & ->).
    constructor; [by eapply unchanged_or_moved_trans | by eapply IH].
Qed.

Lemma Forall2_unchanged_refl l : Forall2 unchanged_or_moved l l.
Proof. induction l; constructor; [by left | done]. Qed.

Lemma move_constants picks i m m' :
  move picks i m = Some m' ->
  agent_constants <$> agents m' = agent_constants <$> agents m
  /\ Forall2 unchanged_or_moved (agents m) (agents m').
Proof.
  intros H.
  apply move_cases in H as [->|[->|(a & p & Hi & Hp & ->)]];
    cbn [set_happy set_agents agents].
  - split; [reflexivity | apply Forall2_unchanged_refl].
  - split; [reflexivity | apply Forall2_unchanged_refl].
  - split.
    + rewrite list_fmap_insert. apply list_insert_id.
      by rewrite list_lookup_fmap, Hi.
    + apply Forall2_same_length_lookup_2; [by rewrite length_insert|].
      intros j x y Hx Hy.
      destruct (decide (i = j)) as [->|Hne].
      * rewrite list_lookup_insert_eq in Hy by (by eapply lookup_lt_Some).
        injection Hy as <-. rewrite Hi in Hx. injection Hx as <-.
        right. cbn. lia.
      * rewrite list_lookup_insert_ne in Hy by done.
        rewrite Hx in Hy. injection Hy as <-. by left.
Qed.

Lemma run_moves_constants sample_picks order : forall m m',
  run_moves sample_picks order m = Some m' ->
  agent_constants <$> agents m' = agent_constants <$> agents m
  /\ Forall2 unchanged_or_moved (agents m) (agents m').
Proof.
  induction order as [|i rest IH]; intros m m' H; cbn [run_moves] in H.
  - injection H as <-. split; [reflexivity | apply Forall2_unchanged_refl].
  - bind_inv H.
    destruct (move_constants _ _ _ _ E) as [C1 U1].
    destruct (IH _ _ H) as [C2 U2].
    split; [congruence | by eapply Forall2_unchanged_trans].
Qed.

(** X21.  Throughout a run an agent keeps its identity, income class, type and
    move cost; it is exactly as it was at the start unless it has moved
    since, and then its move counter has grown: the counter never
    decreases and a position only changes with a counted move. *)
Theorem agents_only_move (m0 m : SchellingModel) :
  runs_to m0 m ->
  agent_constants <$> agents m = agent_constants <$> agents m0
  /\ Forall2 unchanged_or_moved (agents m0) (agents m).
Proof.
  induction 1 as [|m1 m2 op sp _ [IHc IHu] Hstep].
  - split; [reflexivity | apply Forall2_unchanged_refl].
  - unfold step in Hstep.
    destruct (run_moves sp _ (set_happy 0 m1)) as [s|] eqn:E;
      cbn [mbind option_bind] in Hstep; [|discriminate].
    injection Hstep as <-.
    destruct (run_moves_constants _ _ _ _ E) as [C U].
    cbn [set_running collect set_model_vars set_happy agents] in *.
    split; [congruence | by eapply Forall2_unchanged_trans].
Qed.

Lemma agents_only_move_witness :
  exists m0 g' m,
    SchellingModel_init lone_config zero_thresholds = Some (m0, g')
    /\ step [] first_cells m0 = Some m
    /\ pos <$> agents m0 = [(1, 1)]%nat
    /\ pos <$> agents m = [(0, 0)]%nat
    /\ Forall2 unchanged_or_moved (agents m0) (agents m).
Proof.
  evar (m0 : SchellingModel). evar (g' : Globals). evar (m : SchellingModel).
  assert (H0 : SchellingModel_init lone_config zero_thresholds
               = Some (m0, g'))
    by (subst m0 g'; vm_compute; reflexivity).
  assert (H1 : step [] first_cells m0 = Some m)
    by (subst m; vm_compute; reflexivity).
  exists m0, g', m. split; [exact H0|]. split; [exact H1|].
  split; [reflexivity|]. split; [reflexivity|].
  exact (proj2 (agents_only_move m0 m
                  (runs_to_step m0 m0 m [] first_cells (runs_to_refl m0) H1))).
Defined.

(** ** The choice of a destination *)

Lemma score_gt_spec a b : score_gt a b = true <-> ~ score_le a b.
Proof.
  destruct a as [|x], b as [|y]; cbn; try (split; [discriminate | tauto]).
  - split; [intros _ []| reflexivity].
  - rewrite Qltb_true. split; lra.
Qed.

Lemma score_le_refl a : score_le a a.
Proof. destruct a; cbn; [exact I | lra]. Qed.

Lemma score_le_trans a b c : score_le a b -> score_le b c -> score_le a c.
Proof. destruct a, b, c; cbn; try tauto; lra. Qed.

Lemma score_le_total a b : ~ score_le a b -> score_le b a.
Proof. destruct a, b; cbn; try tauto; lra. Qed.

Lemma best_candidate_spec a m candidates : forall best_pos best_eval r,
  best_candidate a m candidates best_pos best_eval = Some r ->
  exists re,
    score_le best_eval re
    /\ (forall c, c ∈ candidates ->
          exists sc, evaluate_location a m c = Some sc /\ score_le sc re)
    /\ ((r = best_pos /\ re = best_eval)
        \/ (exists p, r = Some p /\ p ∈ candidates
                      /\ evaluate_location a m p = Some re
                      /\ re <> NegInf)).
Proof.
  induction candidates as [|c rest IH]; intros bp be r H;
    cbn [best_candidate] in H.
  - injection H as <-. exists be. split; [apply score_le_refl|].
    split; [intros c Hc; by apply elem_of_nil in Hc | by left].
  - destruct (evaluate_location a m c) as [ev|] eqn:E;
      cbn [mbind option_bind] in H; [|discriminate].
    destruct (score_gt ev be) eqn:Hgt.
    + apply score_gt_spec in Hgt.
      destruct (IH _ _ _ H) as (re & Hle & Hall & Hr).
      exists re. split.
      { eapply score_le_trans; [by apply score_le_total|exact Hle]. }
      split.
      { intros c' [->|Hc']%elem_of_cons; [by exists ev | by apply Hall]. }
      right. destruct Hr as [[-> ->]|(p & -> & Hp & Hev & Hne)].
      * exists c. split; [reflexivity|]. split; [apply elem_of_cons; by left|].
        split; [exact E|]. intros ->. apply Hgt. exact I.
      * exists p. split; [reflexivity|].
        split; [apply elem_of_cons; by right | by split].
    + assert (Hle' : score_le ev be).
      { destruct (score_gt ev be) eqn:G; [discriminate|].
        destruct ev as [|x], be as [|y]; cbn in *; try tauto; try discriminate.
        apply Qltb_false in G. exact G. }
      destruct (IH _ _ _ H) as (re & Hle & Hall & Hr).
      exists re. split; [exact Hle|]. split.
      { intros c' [->|Hc']%elem_of_cons; [|by apply Hall].
        exists ev. split; [exact E|]. by eapply score_le_trans. }
      destruct Hr as [Hr|(p & -> & Hp & Hev & Hne)]; [by left|].
      right. exists p. split; [reflexivity|].
      split; [apply elem_of_cons; by right | by split].
Qed.

Lemma evaluate_location_NegInf a m p :
  evaluate_location a m p = Some NegInf <-> get_neighbors m p = [].
Proof.
  unfold evaluate_location. destruct (get_neighbors m p) as [|n ns].
  - by split.
  - destruct (py_div 1 (type a + 0.01)); cbn; split; discriminate.
Qed.

(** X22.  The destination an unsatisfied agent chooses among the sampled empty
    cells: a cell with at least one neighbour whose score is the highest
    of the sample; none exactly when no sampled cell has a neighbour (the
    agent then stays). *)
Theorem destination_is_best (a : SchellingAgent) (m : SchellingModel)
  (candidates : list Pos) (r : option Pos) :
  best_candidate a m candidates None NegInf = Some r ->
  match r with
  | Some p =>
      p ∈ candidates
      /\ get_neighbors m p <> []
      /\ exists s,
           evaluate_location a m p = Some (Fin s)
           /\ forall c s', c ∈ candidates ->
                evaluate_location a m c = Some (Fin s') -> s' <= s
  | None => forall c, c ∈ candidates -> get_neighbors m c = []
  end.
Proof.
  intros H. apply best_candidate_spec in H as (re & _ & Hall & Hr).
  destruct Hr as [[-> ->]|(p & -> & Hp & Hev & Hne)].
  - intros c Hc. destruct (Hall c Hc) as (sc & Hsc & Hle).
    destruct sc; [by apply (evaluate_location_NegInf a) | destruct Hle].
  - split; [exact Hp|]. destruct re as [|s]; [done|]. split.
    + intros Hnil. apply (evaluate_location_NegInf a) in Hnil. congruence.
    + exists s. split; [exact Hev|]. intros c s' Hc Hs'.
      destruct (Hall c Hc) as (sc & Hsc & Hle).
      rewrite Hs' in Hsc. injection Hsc as <-. exact Hle.
Qed.

Lemma destination_is_best_witness :
  exists m g a p,
    SchellingModel_init lone_config zero_thresholds = Some (m, g)
    /\ agents m !! 0%nat = Some a
    /\ best_candidate a m (empties m) None NegInf = Some (Some p)
    /\ p ∈ empties m.
Proof.
  evar (m : SchellingModel). evar (g : Globals). evar (a : SchellingAgent).
  evar (p : Pos).
  assert (H0 : SchellingModel_init lone_config zero_thresholds = Some (m, g))
    by (subst m g; vm_compute; reflexivity).
  assert (H1 : agents m !! 0%nat = Some a)
    by (subst a; vm_compute; reflexivity).
  assert (H2 : best_candidate a m (empties m) None NegInf = Some (Some p))
    by (subst p; vm_compute; reflexivity).
  exists m, g, a, p. split; [exact H0|]. split; [exact H1|].
  split; [exact H2|].
  exact (proj1 (destination_is_best a m (empties m) (Some p) H2)).
Defined.

End SchellingExtras.
